(** * Arcbot: the Discord gateway connector (src/arcbot/Discord.py)

    A shallow embedding of the connector's event registry (class [event]),
    its payload decoder, the gateway message handler, the heartbeat loop and
    the socket reader, followed by the properties stated about them.

    Conventions of the embedding.
    - Python values that flow through the connector are the inductive
      [value]; a raised exception is the [Raise] branch of [result].
    - Python floats holding clock readings are exact rationals ([Q]).
    - The class attribute [event.subscriptions] is a dictionary whose values
      are list objects.  List objects live in a store and are named by their
      location, so that two names of one list object see each other's
      mutations. *)

From Stdlib Require Import ZArith QArith Qround Lia Ascii String Sorted.
From stdpp Require Import gmap strings list pretty.

Set Warnings "-register-all".
Local Open Scope string_scope.
Local Open Scope list_scope.
Local Open Scope Z_scope.

(** ** Python exceptions and results *)

Inductive exn :=
| KeyError
| TypeError
| AttributeError
| ValueError
| SSLError (errno : Z)
| OSError (errno : Z).

Inductive result (A : Type) :=
| Ok (a : A)
| Raise (e : exn).
Arguments Ok {A} a.
Arguments Raise {A} e.

Definition bind {A B} (r : result A) (k : A -> result B) : result B :=
  match r with
  | Ok a => k a
  | Raise e => Raise e
  end.

Notation "x <- r ;; k" := (bind r (fun x => k))
  (at level 100, r at next level, right associativity).

(** ** The enumeration [events]

    [auto()] numbers the members 1, 2, ... in the order of declaration. *)

Inductive events :=
| READY | RESUMED | CHANNEL_CREATE | CHANNEL_UPDATE | CHANNEL_DELETE
| CHANNEL_PINS_UPATE | GUILD_CREATE | GUILD_UPDATE | GUILD_DELETE
| GUILD_BAN_ADD | GUILD_BAN_REMOVE | GUILD_EMOJIS_UPDATE
| GUILD_INTEGRATIONS_UPDATE | GUILD_MEMBER_ADD | GUILD_MEMBER_REMOVE
| GUILD_MEMBER_UPDATE | GUILD_MEMBERS_CHUNK | GUILD_ROLE_CREATE
| GUILD_ROLE_UPDATE | GUILD_ROLE_DELETE | MESSAGE_CREATE | MESSAGE_UPDATE
| MESSAGE_DELETE | MESSAGE_DELETE_BULK | MESSAGE_REACTION_ADD
| MESSAGE_REACTION_REMOVE | MESSAGE_REACTION_REMOVE_ALL | PRESENCE_UPDATE
| TYPING_START | USER_UPDATE | VOICE_STATE_UPDATE | VOICE_SERVER_UPDATE
| WEBHOOKS_UPDATE.

Definition events_members : list (string * events) :=
  [ ("READY", READY); ("RESUMED", RESUMED);
    ("CHANNEL_CREATE", CHANNEL_CREATE); ("CHANNEL_UPDATE", CHANNEL_UPDATE);
    ("CHANNEL_DELETE", CHANNEL_DELETE);
    ("CHANNEL_PINS_UPATE", CHANNEL_PINS_UPATE);
    ("GUILD_CREATE", GUILD_CREATE); ("GUILD_UPDATE", GUILD_UPDATE);
    ("GUILD_DELETE", GUILD_DELETE); ("GUILD_BAN_ADD", GUILD_BAN_ADD);
    ("GUILD_BAN_REMOVE", GUILD_BAN_REMOVE);
    ("GUILD_EMOJIS_UPDATE", GUILD_EMOJIS_UPDATE);
    ("GUILD_INTEGRATIONS_UPDATE", GUILD_INTEGRATIONS_UPDATE);
    ("GUILD_MEMBER_ADD", GUILD_MEMBER_ADD);
    ("GUILD_MEMBER_REMOVE", GUILD_MEMBER_REMOVE);
    ("GUILD_MEMBER_UPDATE", GUILD_MEMBER_UPDATE);
    ("GUILD_MEMBERS_CHUNK", GUILD_MEMBERS_CHUNK);
    ("GUILD_ROLE_CREATE", GUILD_ROLE_CREATE);
    ("GUILD_ROLE_UPDATE", GUILD_ROLE_UPDATE);
    ("GUILD_ROLE_DELETE", GUILD_ROLE_DELETE);
    ("MESSAGE_CREATE", MESSAGE_CREATE); ("MESSAGE_UPDATE", MESSAGE_UPDATE);
    ("MESSAGE_DELETE", MESSAGE_DELETE);
    ("MESSAGE_DELETE_BULK", MESSAGE_DELETE_BULK);
    ("MESSAGE_REACTION_ADD", MESSAGE_REACTION_ADD);
    ("MESSAGE_REACTION_REMOVE", MESSAGE_REACTION_REMOVE);
    ("MESSAGE_REACTION_REMOVE_ALL", MESSAGE_REACTION_REMOVE_ALL);
    ("PRESENCE_UPDATE", PRESENCE_UPDATE); ("TYPING_START", TYPING_START);
    ("USER_UPDATE", USER_UPDATE);
    ("VOICE_STATE_UPDATE", VOICE_STATE_UPDATE);
    ("VOICE_SERVER_UPDATE", VOICE_SERVER_UPDATE);
    ("WEBHOOKS_UPDATE", WEBHOOKS_UPDATE) ].

#[global] Instance events_eq_dec : EqDecision events.
Proof. solve_decision. Defined.

(** The value [auto()] gave the member. *)
Definition events_value (e : events) : nat :=
  match e with
  | READY => 1 | RESUMED => 2 | CHANNEL_CREATE => 3 | CHANNEL_UPDATE => 4
  | CHANNEL_DELETE => 5 | CHANNEL_PINS_UPATE => 6 | GUILD_CREATE => 7
  | GUILD_UPDATE => 8 | GUILD_DELETE => 9 | GUILD_BAN_ADD => 10
  | GUILD_BAN_REMOVE => 11 | GUILD_EMOJIS_UPDATE => 12
  | GUILD_INTEGRATIONS_UPDATE => 13 | GUILD_MEMBER_ADD => 14
  | GUILD_MEMBER_REMOVE => 15 | GUILD_MEMBER_UPDATE => 16
  | GUILD_MEMBERS_CHUNK => 17 | GUILD_ROLE_CREATE => 18
  | GUILD_ROLE_UPDATE => 19 | GUILD_ROLE_DELETE => 20 | MESSAGE_CREATE => 21
  | MESSAGE_UPDATE => 22 | MESSAGE_DELETE => 23 | MESSAGE_DELETE_BULK => 24
  | MESSAGE_REACTION_ADD => 25 | MESSAGE_REACTION_REMOVE => 26
  | MESSAGE_REACTION_REMOVE_ALL => 27 | PRESENCE_UPDATE => 28
  | TYPING_START => 29 | USER_UPDATE => 30 | VOICE_STATE_UPDATE => 31
  | VOICE_SERVER_UPDATE => 32 | WEBHOOKS_UPDATE => 33
  end%nat.

(** [events(n)]: the member with value [n]. *)
Definition events_of_value (n : nat) : option events :=
  snd <$> (events_members !! pred n).

#[global] Instance events_countable : Countable events.
Proof.
  refine (inj_countable events_value events_of_value _).
  intros []; reflexivity.
Defined.

(** ** Values *)

(** A location of the store of list objects. *)
Definition loc := nat.

(** A callable handed to [subscribe]; it is known by its identity only. *)
Inductive callback := Callback (id : nat).

#[global] Instance callback_eq_dec : EqDecision callback.
Proof. solve_decision. Defined.

(** What [json.loads] returns, and what the decoder makes of it.  A
    dictionary is the list of its items in insertion order; [VClass] is a
    class made by [type('Event', (), namespace)], with its namespace;
    [VEnum] is a member of [events]; [VListRef] names a list of callbacks in
    the store.  JSON numbers with a fraction do not occur in the fields the
    connector reads, and are left out. *)
Inductive value :=
| VNone
| VBool (b : bool)
| VInt (z : Z)
| VStr (s : string)
| VList (l : list value)
| VDict (d : list (string * value))
| VClass (ns : list (string * value))
| VEnum (e : events)
| VListRef (l : loc).

(** *** Dictionaries: items in insertion order, one per key *)

Definition items := list (string * value).

Fixpoint dict_get (d : items) (k : string) : option value :=
  match d with
  | [] => None
  | (k', v) :: d' => if decide (k' = k) then Some v else dict_get d' k
  end.

(** [d[k] = v]: an existing key keeps its place, a new one goes last. *)
Fixpoint dict_set (d : items) (k : string) (v : value) : items :=
  match d with
  | [] => [(k, v)]
  | (k', v') :: d' =>
      if decide (k' = k) then (k, v) :: d' else (k', v') :: dict_set d' k v
  end.

(** A dictionary built by setting the items one after the other, as a
    dictionary comprehension does. *)
Definition dict_of_items (l : items) : items :=
  foldl (fun d kv => dict_set d kv.1 kv.2) [] l.

(** [obj[key]] for a string key. *)
Definition subscript (obj : value) (k : string) : result value :=
  match obj with
  | VDict d => match dict_get d k with
               | Some v => Ok v
               | None => Raise KeyError
               end
  | _ => Raise TypeError
  end.

(** [getattr(obj, name)] and [setattr(obj, name, v)] on the values of the
    model: only classes made by the decoder carry attributes of their own. *)
Definition getattr (obj : value) (name : string) : result value :=
  match obj with
  | VClass ns => match dict_get ns name with
                 | Some v => Ok v
                 | None => Raise AttributeError
                 end
  | _ => Raise AttributeError
  end.

Definition setattr (obj : value) (name : string) (v : value) : result value :=
  match obj with
  | VClass ns => Ok (VClass (dict_set ns name v))
  | _ => Raise AttributeError
  end.

(** [getattr(events, name)]: the member of that name; [AttributeError] for
    a name that is no member's.  (The names of the other attributes of an
    enumeration class, such as [__members__], are not event names and are
    not modelled.) *)
Definition events_getattr (name : value) : result events :=
  match name with
  | VStr s => match list_find (fun p => p.1 = s) events_members with
              | Some (_, (_, e)) => Ok e
              | None => Raise AttributeError
              end
  | _ => Raise TypeError
  end.

(** [x == n] for an integer literal [n]. *)
Definition py_eq_int (x : value) (n : Z) : bool :=
  match x with
  | VInt z => bool_decide (z = n)
  | VBool b => bool_decide ((if b then 1 else 0) = n)
  | _ => false
  end.

(** Truth value of an object, as [if not x] tests it. *)
Definition truthy (x : value) : bool :=
  match x with
  | VNone => false
  | VBool b => b
  | VInt z => negb (bool_decide (z = 0))
  | VStr s => negb (bool_decide (s = EmptyString))
  | VList l => negb (bool_decide (l = []))
  | VDict d => negb (bool_decide (d = []))
  | _ => true
  end.

(** ** The class [event]: subscription registry and payload decoder *)

(** [l.remove(x)]: drops the first item equal to [x]; [ValueError] when
    there is none. *)
Fixpoint list_remove (x : callback) (l : list callback)
  : result (list callback) :=
  match l with
  | [] => Raise ValueError
  | y :: l' =>
      if decide (y = x) then Ok l'
      else l'' <- list_remove x l' ;; Ok (y :: l'')
  end.

Module event.

(** The state the class methods work on: the store of list objects and the
    class attribute [subscriptions], a dictionary from event identifiers
    (members of [events], the keys [from_message] looks up) to list
    objects.  A list object registered for a key is in the store ([wf]
    below, which every method keeps); reading a location outside the store
    finds no items. *)
Record cls := Cls {
  heap : list (list callback);
  subscriptions : gmap events loc
}.

(** [subscriptions = {}] *)
Definition init : cls := Cls [] ∅.

Definition unsubscribe (event_id : events) (cb : callback) (c : cls)
  : result cls :=
  match subscriptions c !! event_id with
  | Some l =>
      xs <- list_remove cb (heap c !!! l) ;;
      Ok (Cls (<[l := xs]> (heap c)) (subscriptions c))
  | None => Ok c
  end.

Definition subscribe (event_id : events) (cb : callback) (c : cls) : cls :=
  match subscriptions c !! event_id with
  | None =>
      Cls (heap c ++ [[cb]])
          (<[event_id := length (heap c)]> (subscriptions c))
  | Some l =>
      Cls (<[l := heap c !!! l ++ [cb]]> (heap c)) (subscriptions c)
  end.

(** [convert], the local function of [to_object].  The namespace handed to
    [type] is the dictionary the comprehension builds. *)
Fixpoint convert (item : value) : value :=
  match item with
  | VDict d =>
      VClass (dict_of_items
                ((fix over (d : items) : items :=
                    match d with
                    | [] => []
                    | (k, v) :: d' => (k, convert v) :: over d'
                    end) d))
  | VList l => VList (map convert l)
  | _ => item
  end.

Definition to_object (item : value) : value := convert item.

(** [subscriptions.get(name, [])]: the list object registered for [name],
    or a new, empty one. *)
Definition subscriptions_get (name : events) (c : cls) : loc * cls :=
  match subscriptions c !! name with
  | Some l => (l, c)
  | None => (length (heap c), Cls (heap c ++ [[]]) (subscriptions c))
  end.

(** [from_message] returns the event and the state of the class; nothing
    has changed when it raises.  [new_event.name], read back for the
    lookup, is the member just stored. *)
Definition from_message (message : value) (c : cls) : result (value * cls) :=
  d <- subscript message "d" ;;
  let new_event := to_object d in
  t <- subscript message "t" ;;
  name <- events_getattr t ;;
  new_event <- setattr new_event "name" (VEnum name) ;;
  s <- subscript message "s" ;;
  new_event <- setattr new_event "sequence" s ;;
  let '(l, c') := subscriptions_get name c in
  new_event <- setattr new_event "subscriptions" (VListRef l) ;;
  Ok (new_event, c').

(** The items of the list object an event's [subscriptions] attribute
    names, as an iteration over it in state [c] finds them. *)
Definition subscribers (new_event : value) (c : cls)
  : result (list callback) :=
  ref <- getattr new_event "subscriptions" ;;
  match ref with
  | VListRef l => Ok (heap c !!! l)
  | _ => Raise TypeError
  end.

(** The list registered for a key, empty when there is none. *)
Definition registered (event_id : events) (c : cls) : list callback :=
  match subscriptions c !! event_id with
  | Some l => heap c !!! l
  | None => []
  end.

(** Every registered list object is in the store, and no two keys share
    one. *)
Definition wf (c : cls) : Prop :=
  forall k l, subscriptions c !! k = Some l ->
    (l < length (heap c))%nat /\
    forall k', subscriptions c !! k' = Some l -> k' = k.

End event.

(** ** Clock readings and the latency sample *)

(** [round(x)]: the nearest integer, a tie going to the even one. *)
Definition py_round (x : Q) : Z :=
  let f := Qfloor x in
  match Qcompare (x - inject_Z f) (1 # 2) with
  | Lt => f
  | Gt => f + 1
  | Eq => if Z.even f then f else f + 1
  end.

(** [datetime.timedelta]: normalised days, seconds and microseconds, with
    [0 <= seconds < 86400] and [0 <= microseconds < 1000000]. *)
Record timedelta := Timedelta {
  days : Z;
  seconds : Z;
  microseconds : Z
}.

(** [timedelta(seconds=x)]: [x] is rounded to whole microseconds and
    split. *)
Definition timedelta_of_seconds (x : Q) : timedelta :=
  let us := py_round (x * 1000000) in
  Timedelta (us / 86400000000) ((us / 1000000) mod 86400) (us mod 1000000).

(** The elapsed time the object stands for, in microseconds. *)
Definition total_microseconds (d : timedelta) : Z :=
  (days d * 86400 + seconds d) * 1000000 + microseconds d.

(** The two lines shared by [connect] and the HeartbeatAck branch:
    [ping = timedelta(seconds=time.monotonic()-self.ping_start)] and
    [round(ping.microseconds / 1000)]. *)
Definition latency (ping_start monotonic : Q) : Z :=
  let ping := timedelta_of_seconds (monotonic - ping_start) in
  py_round (inject_Z (microseconds ping) / 1000).

(** ** The connector object and what it talks to *)

Inductive level := DEBUG | INFO | WARNING.

(** What [socket.recv()] does when called. *)
Inductive recv_outcome :=
| RecvText (s : string)
| RecvSSLError (errno : Z)
| RecvOSError (errno : Z)
| RecvClosed.

(** What [socket.send(...)] does when called. *)
Inductive send_outcome :=
| SendOk
| SendOSError (errno : Z)
| SendClosed.

(** A submission to the worker pool, [core.workers.queue(f, arg)]. *)
Inductive task :=
| HandleMessage (gateway_message : value)
| Call (cb : callback) (new_event : value).

(** The fields of the [Discord] object, with the socket, the worker pool,
    the logger and the class [event] it works on.  [recv_script] and
    [send_script] are what the socket will do on the coming calls; when
    [recv_script] is used up the non-blocking socket has nothing to read,
    when [send_script] is used up a send goes through.  [sent] holds the
    data of the frames that went out, oldest first. *)
Record state := State {
  connected : bool;
  ping : Z;
  sequence : value;
  ping_start : Q;
  heartbeat_interval : Z;
  status : string;
  recv_script : list recv_outcome;
  send_script : list send_outcome;
  sent : list value;
  workers : list task;
  log : list (level * string);
  bus : event.cls
}.

Definition set_connected (b : bool) (st : state) : state :=
  State b (ping st) (sequence st) (ping_start st) (heartbeat_interval st)
        (status st) (recv_script st) (send_script st) (sent st) (workers st)
        (log st) (bus st).

Definition set_ping (p : Z) (st : state) : state :=
  State (connected st) p (sequence st) (ping_start st) (heartbeat_interval st)
        (status st) (recv_script st) (send_script st) (sent st) (workers st)
        (log st) (bus st).

Definition set_sequence (s : value) (st : state) : state :=
  State (connected st) (ping st) s (ping_start st) (heartbeat_interval st)
        (status st) (recv_script st) (send_script st) (sent st) (workers st)
        (log st) (bus st).

Definition set_ping_start (t : Q) (st : state) : state :=
  State (connected st) (ping st) (sequence st) t (heartbeat_interval st)
        (status st) (recv_script st) (send_script st) (sent st) (workers st)
        (log st) (bus st).

Definition set_status_field (s : string) (st : state) : state :=
  State (connected st) (ping st) (sequence st) (ping_start st)
        (heartbeat_interval st) s (recv_script st) (send_script st) (sent st)
        (workers st) (log st) (bus st).

Definition set_recv_script (r : list recv_outcome) (st : state) : state :=
  State (connected st) (ping st) (sequence st) (ping_start st)
        (heartbeat_interval st) (status st) r (send_script st) (sent st)
        (workers st) (log st) (bus st).

Definition set_send_script (r : list send_outcome) (st : state) : state :=
  State (connected st) (ping st) (sequence st) (ping_start st)
        (heartbeat_interval st) (status st) (recv_script st) r (sent st)
        (workers st) (log st) (bus st).

Definition set_sent (l : list value) (st : state) : state :=
  State (connected st) (ping st) (sequence st) (ping_start st)
        (heartbeat_interval st) (status st) (recv_script st) (send_script st)
        l (workers st) (log st) (bus st).

Definition set_workers (w : list task) (st : state) : state :=
  State (connected st) (ping st) (sequence st) (ping_start st)
        (heartbeat_interval st) (status st) (recv_script st) (send_script st)
        (sent st) w (log st) (bus st).

Definition set_bus (c : event.cls) (st : state) : state :=
  State (connected st) (ping st) (sequence st) (ping_start st)
        (heartbeat_interval st) (status st) (recv_script st) (send_script st)
        (sent st) (workers st) (log st) c.

(** [self.logger.<level>(msg)] *)
Definition logger (lv : level) (msg : string) (st : state) : state :=
  State (connected st) (ping st) (sequence st) (ping_start st)
        (heartbeat_interval st) (status st) (recv_script st) (send_script st)
        (sent st) (workers st) (log st ++ [(lv, msg)]) (bus st).

(** Modelled from the spec: the worker pool [core.workers], whose code is
    not in the connector's file.  [core.workers.queue(f, arg)] submits [f]
    with its argument and comes back at once, with nothing returned; the
    submissions wait in the pool in the order made. *)
Definition queue (t : task) (st : state) : state :=
  set_workers (workers st ++ [t]) st.

(** [__init__]: the assignments to [connected], [ping] and [sequence];
    [heartbeat_interval] and [ping_start] are first assigned by [connect]. *)
Definition __init__ (st : state) : state :=
  set_sequence (VInt 0) (set_ping (-1) (set_connected false st)).

(** *** Writing to the socket *)

(** [_write_socket(data)]: the data goes out, or the peer is gone and the
    connector gives up the session, or the exception is raised again. *)
Definition _write_socket (data : value) (st : state) : result unit * state :=
  let outcome := hd SendOk (send_script st) in
  let st := set_send_script (tl (send_script st)) st in
  match outcome with
  | SendOk => (Ok tt, set_sent (sent st ++ [data]) st)
  | SendOSError errno =>
      if bool_decide (errno = 104) then
        if negb (connected st) then (Ok tt, st)
        else (Ok tt, set_connected false
                       (logger WARNING "READ: Connection reset by peer." st))
      else (Raise (OSError errno), st)
  | SendClosed =>
      if negb (connected st) then (Ok tt, st)
      else (Ok tt, set_connected false
                     (logger WARNING "WRTIE: Websocket unexpectedly closed."
                             st))
  end.

Definition set_status (s : string) (st : state) : result unit * state :=
  _write_socket
    (VDict [("op", VInt 3);
            ("d", VDict [("idle_since", VNone);
                         ("game", VDict [("name", VStr s)])])])
    (set_status_field s st).

(** *** Reading from the socket *)

(** Characters [str.rstrip()] strips, among the ASCII ones. *)
Definition is_space (a : ascii) : bool :=
  let n := nat_of_ascii a in
  ((9 <=? n) && (n <=? 13) || (28 <=? n) && (n <=? 32))%nat.

Fixpoint rstrip (s : string) : string :=
  match s with
  | EmptyString => EmptyString
  | String a s' =>
      match rstrip s' with
      | EmptyString => if is_space a then EmptyString
                       else String a EmptyString
      | r => String a r
      end
  end.

(** The [while True] loop of [_read_socket], one turn per call of
    [socket.recv()]; [data] is the text gathered so far.  [loads] stands for
    [json.loads], [None] for its [ValueError]. *)
Fixpoint read_loop (loads : string -> option value)
    (script : list recv_outcome) (data : string) (st : state)
  : result value * state :=
  match script with
  | [] => (Ok VNone, set_recv_script [] st)
  | RecvText s :: script' =>
      let data := String.app data s in
      if bool_decide (data = EmptyString)
      then (Ok VNone, set_recv_script script' st)
      else match loads (rstrip data) with
           | Some v => (Ok v, set_recv_script script' st)
           | None => read_loop loads script' data st
           end
  | RecvSSLError errno :: script' =>
      if bool_decide (errno = 2) then (Ok VNone, set_recv_script script' st)
      else (Raise (SSLError errno), set_recv_script script' st)
  | RecvOSError errno :: script' =>
      if bool_decide (errno = 104) then
        if negb (connected st) then (Ok VNone, set_recv_script script' st)
        else (Ok VNone,
              set_recv_script script'
                (set_connected false
                   (logger WARNING "READ: Connection reset by peer." st)))
      else if bool_decide (errno = 11)
      then (Ok VNone, set_recv_script script' st)
      else (Raise (OSError errno), set_recv_script script' st)
  | RecvClosed :: script' =>
      if negb (connected st) then (Ok VNone, set_recv_script script' st)
      else read_loop loads script' data
             (set_connected false
                (logger WARNING "READ: Websocket unexpectedly closed." st))
  end.

Definition _read_socket (loads : string -> option value) (st : state)
  : result value * state :=
  read_loop loads (recv_script st) EmptyString st.

(** *** The message handler *)

(** [handle_gateway_message], the local function of [_message_consumer].
    [monotonic] is what [time.monotonic()] reads if the HeartbeatAck branch
    asks.  The state comes back also when the handler raises. *)
Definition handle_gateway_message (monotonic : Q) (gateway_message : value)
    (st : state) : result unit * state :=
  match subscript gateway_message "op" with
  | Raise e => (Raise e, st)
  | Ok op =>
      if py_eq_int op 0 then
        match event.from_message gateway_message (bus st) with
        | Raise e => (Raise e, st)
        | Ok (new_event, c) =>
            let st := set_bus c st in
            match getattr new_event "sequence" with
            | Raise e => (Raise e, st)
            | Ok s =>
                let st := set_sequence s st in
                match event.subscribers new_event (bus st) with
                | Raise e => (Raise e, st)
                | Ok cbs =>
                    (Ok tt,
                     foldl (fun st cb => queue (Call cb new_event) st) st cbs)
                end
            end
        end
      else if py_eq_int op 9 then
        (Ok tt,
         logger WARNING "Connection terminated with Invalid Session ID"
                (set_connected false st))
      else if py_eq_int op 11 then
        (Ok tt, set_ping (latency (ping_start st) monotonic) st)
      else (Ok tt, st)
  end.

(** *** The heartbeat thread *)

(** The clock readings of one turn of the heartbeat loop: [time.time()] at
    its head, [time.monotonic()] and [time.time()] around the send. *)
Record tick := Tick {
  now : Q;
  monotonic : Q;
  after_send : Q
}.

(** [(now - last_heartbeat) >= heartbeat_interval - 1], the local
    [heartbeat_interval] being [self.heartbeat_interval / 1000]. *)
Definition heartbeat_due (interval_ms : Z) (last_heartbeat now : Q) : bool :=
  Qle_bool (inject_Z interval_ms / 1000 - 1) (now - last_heartbeat).

(** The body of the [while self.connected] loop of [_heartbeat], up to the
    sleep: the new [last_heartbeat] and the state. *)
Definition heartbeat_body (interval_ms : Z) (tk : tick) (last_heartbeat : Q)
    (st : state) : result Q * state :=
  if heartbeat_due interval_ms last_heartbeat (now tk) then
    let st := set_ping_start (monotonic tk) st in
    match _write_socket (VDict [("op", VInt 1); ("d", sequence st)]) st with
    | (Raise e, st) => (Raise e, st)
    | (Ok _, st) =>
        let st := logger DEBUG "Heartbeat" st in
        let last_heartbeat := after_send tk in
        match set_status
                (String.app "Ping: " (String.app (pretty (ping st)) "ms")) st
        with
        | (Raise e, st) => (Raise e, st)
        | (Ok _, st) => (Ok last_heartbeat, st)
        end
    end
  else (Ok last_heartbeat, st).

(** How a thread's function stands after a finite schedule. *)
Inductive outcome :=
| Returned
| Raised (e : exn)
| Running.

(** The loop of [_heartbeat] over the clock readings of its coming turns. *)
Fixpoint heartbeat_loop (interval_ms : Z) (ticks : list tick)
    (last_heartbeat : Q) (st : state) : outcome * state :=
  if negb (connected st) then (Returned, st)
  else match ticks with
       | [] => (Running, st)
       | tk :: ticks' =>
           match heartbeat_body interval_ms tk last_heartbeat st with
           | (Raise e, st) => (Raised e, st)
           | (Ok last_heartbeat, st) =>
               heartbeat_loop interval_ms ticks' last_heartbeat st
           end
       end.

(** [_heartbeat]: [start] is the clock reading before the loop; the
    interval is read once, there. *)
Definition _heartbeat (start : Q) (ticks : list tick) (st : state)
  : outcome * state :=
  let st :=
    logger DEBUG
      (String.app "Spawning heartbeat thread at interval: "
                  (pretty (heartbeat_interval st))) st in
  heartbeat_loop (heartbeat_interval st) ticks start st.

(** *** The consumer thread *)

(** One turn of the [while self.connected] loop of [_message_consumer],
    after the guard. *)
Definition consumer_body (loads : string -> option value) (st : state)
  : result unit * state :=
  match _read_socket loads st with
  | (Raise e, st) => (Raise e, st)
  | (Ok gateway_message, st) =>
      if negb (truthy gateway_message) then (Ok tt, st)
      else (Ok tt, queue (HandleMessage gateway_message) st)
  end.

(** The loop, for a number of turns. *)
Fixpoint consumer_loop (loads : string -> option value) (turns : nat)
    (st : state) : outcome * state :=
  if negb (connected st) then (Returned, st)
  else match turns with
       | O => (Running, st)
       | S turns' =>
           match consumer_body loads st with
           | (Raise e, st) => (Raised e, st)
           | (Ok _, st) => consumer_loop loads turns' st
           end
       end.

Definition _message_consumer (loads : string -> option value) (turns : nat)
    (st : state) : outcome * state :=
  consumer_loop loads turns (logger DEBUG "Spawning message_consumer thread" st).

(** *** The threads together *)

(** A thread: not started, in its loop (with what it keeps between turns:
    [last_heartbeat] and the interval for the heartbeat thread), or ended, by
    return or by an exception. *)
Inductive thread (A : Type) :=
| NotStarted
| Alive (locals : A)
| Ended (o : outcome).
Arguments NotStarted {A}.
Arguments Alive {A} locals.
Arguments Ended {A} o.

Record system := System {
  self : state;
  heartbeat_thread : thread (Q * Z);
  message_consumer_thread : thread unit
}.




(** [thread.join()]: the thread goes on, by itself, until its function
    ends; [None] when the schedule given does not get it there. *)
Definition join_heartbeat (ticks : list tick) (sys : system)
  : option system :=
  match heartbeat_thread sys with
  | Alive (last_heartbeat, interval_ms) =>
      match heartbeat_loop interval_ms ticks last_heartbeat (self sys) with
      | (Running, _) => None
      | (o, st) => Some (System st (Ended o) (message_consumer_thread sys))
      end
  | _ => Some sys
  end.

Definition join_message_consumer (loads : string -> option value)
    (turns : nat) (sys : system) : option system :=
  match message_consumer_thread sys with
  | Alive _ =>
      match consumer_loop loads turns (self sys) with
      | (Running, _) => None
      | (o, st) => Some (System st (heartbeat_thread sys) (Ended o))
      end
  | _ => Some sys
  end.

(** [disconnect], up to the closing of the socket; [None] when a join does
    not come back within the schedule. *)
Definition disconnect (loads : string -> option value) (ticks : list tick)
    (turns : nat) (sys : system) : option system :=
  let sys := System (set_connected false (self sys)) (heartbeat_thread sys)
                    (message_consumer_thread sys) in
  sys ← join_heartbeat ticks sys;
  sys ← join_message_consumer loads turns sys;
  Some (System (logger INFO "Disconnected from Discord"
                  (logger DEBUG "Joined message_consumer and heartbeat threads"
                          (self sys)))
               (heartbeat_thread sys) (message_consumer_thread sys)).

(** ** A reader for a subset of JSON

    [json.loads] is a parameter of the reader above.  Where a run needs a
    concrete one, this reader stands for it on texts made of objects,
    arrays, strings without escapes, integers, [true], [false] and [null];
    it refuses every other text. *)

Inductive token :=
| TLBrace | TRBrace | TLBracket | TRBracket | TComma | TColon
| TString (s : string)
| TNumber (z : Z)
| TTrue | TFalse | TNull.

Definition quote_char : ascii := ascii_of_nat 34.
Definition backslash_char : ascii := ascii_of_nat 92.

Definition is_json_space (a : ascii) : bool :=
  let n := nat_of_ascii a in
  bool_decide (n = 32 \/ n = 9 \/ n = 10 \/ n = 13)%nat.

Definition is_digit (a : ascii) : bool :=
  let n := nat_of_ascii a in ((48 <=? n) && (n <=? 57))%nat.

Definition digit_of (a : ascii) : option Z :=
  let n := nat_of_ascii a in
  if ((48 <=? n) && (n <=? 57))%nat then Some (Z.of_nat n - 48) else None.

(** The text up to the closing quote, and what follows it. *)
Fixpoint string_body (s : string) : option (string * string) :=
  match s with
  | EmptyString => None
  | String a s' =>
      if bool_decide (a = quote_char) then Some (EmptyString, s')
      else if bool_decide (a = backslash_char) then None
      else if (nat_of_ascii a <? 32)%nat then None
      else '(body, rest) ← string_body s'; Some (String a body, rest)
  end.

Fixpoint digits (s : string) (acc : Z) : Z * string :=
  match s with
  | EmptyString => (acc, s)
  | String a s' =>
      match digit_of a with
      | Some d => digits s' (10 * acc + d)
      | None => (acc, s)
      end
  end.

(** An integer without sign: no leading zero unless it is zero. *)
Definition natural (s : string) : option (Z * string) :=
  match s with
  | String a s' =>
      match digit_of a with
      | Some 0 => match s' with
                  | String b _ => if is_digit b then None else Some (0, s')
                  | EmptyString => Some (0, s')
                  end
      | Some d => Some (digits s' d)
      | None => None
      end
  | EmptyString => None
  end.

Fixpoint strip_prefix (p s : string) : option string :=
  match p, s with
  | EmptyString, _ => Some s
  | String a p', String b s' =>
      if bool_decide (a = b) then strip_prefix p' s' else None
  | _, _ => None
  end.

Fixpoint lex (fuel : nat) (s : string) : option (list token) :=
  match fuel with
  | O => None
  | S fuel =>
      match s with
      | EmptyString => Some []
      | String a s' =>
          if is_json_space a then lex fuel s'
          else if bool_decide (a = "{"%char) then cons TLBrace <$> lex fuel s'
          else if bool_decide (a = "}"%char) then cons TRBrace <$> lex fuel s'
          else if bool_decide (a = "["%char) then cons TLBracket <$> lex fuel s'
          else if bool_decide (a = "]"%char) then cons TRBracket <$> lex fuel s'
          else if bool_decide (a = ","%char) then cons TComma <$> lex fuel s'
          else if bool_decide (a = ":"%char) then cons TColon <$> lex fuel s'
          else if bool_decide (a = quote_char) then
            '(body, rest) ← string_body s';
            cons (TString body) <$> lex fuel rest
          else if bool_decide (a = "-"%char) then
            '(n, rest) ← natural s';
            cons (TNumber (- n)) <$> lex fuel rest
          else if is_digit a then
            '(n, rest) ← natural s;
            cons (TNumber n) <$> lex fuel rest
          else match strip_prefix "true" s, strip_prefix "false" s,
                     strip_prefix "null" s with
               | Some rest, _, _ => cons TTrue <$> lex fuel rest
               | _, Some rest, _ => cons TFalse <$> lex fuel rest
               | _, _, Some rest => cons TNull <$> lex fuel rest
               | _, _, _ => None
               end
      end
  end.

Fixpoint parse_value (fuel : nat) (ts : list token)
  : option (value * list token) :=
  match fuel with
  | O => None
  | S fuel =>
      match ts with
      | TNull :: ts => Some (VNone, ts)
      | TTrue :: ts => Some (VBool true, ts)
      | TFalse :: ts => Some (VBool false, ts)
      | TNumber z :: ts => Some (VInt z, ts)
      | TString s :: ts => Some (VStr s, ts)
      | TLBracket :: TRBracket :: ts => Some (VList [], ts)
      | TLBracket :: ts => parse_elements fuel ts []
      | TLBrace :: TRBrace :: ts => Some (VDict [], ts)
      | TLBrace :: ts => parse_members fuel ts []
      | _ => None
      end
  end
with parse_elements (fuel : nat) (ts : list token) (acc : list value)
  : option (value * list token) :=
  match fuel with
  | O => None
  | S fuel =>
      '(v, ts) ← parse_value fuel ts;
      match ts with
      | TComma :: ts => parse_elements fuel ts (acc ++ [v])
      | TRBracket :: ts => Some (VList (acc ++ [v]), ts)
      | _ => None
      end
  end
with parse_members (fuel : nat) (ts : list token) (acc : items)
  : option (value * list token) :=
  match fuel with
  | O => None
  | S fuel =>
      match ts with
      | TString k :: TColon :: ts =>
          '(v, ts) ← parse_value fuel ts;
          match ts with
          | TComma :: ts => parse_members fuel ts (dict_set acc k v)
          | TRBrace :: ts => Some (VDict (dict_set acc k v), ts)
          | _ => None
          end
      | _ => None
      end
  end.

Definition json_loads_subset (s : string) : option value :=
  ts ← lex (S (String.length s)) s;
  '(v, rest) ← parse_value (2 * length ts + 2) ts;
  match rest with
  | [] => Some v
  | _ => None
  end.

(** The text of a string literal: the body between quotes. *)
Definition quoted (s : string) : string :=
  String quote_char (String.app s (String quote_char EmptyString)).

(** ** Runs used in the statements *)

(** A call a plug-in or the handler makes on the class [event]. *)
Inductive bus_call :=
| CallSubscribe (event_id : events) (cb : callback)
| CallUnsubscribe (event_id : events) (cb : callback)
| CallFromMessage (message : value).

(** The class after a call; a call that raises leaves it as it was. *)
Definition bus_step (c : event.cls) (call : bus_call) : event.cls :=
  match call with
  | CallSubscribe event_id cb => event.subscribe event_id cb c
  | CallUnsubscribe event_id cb =>
      match event.unsubscribe event_id cb c with
      | Ok c' => c'
      | Raise _ => c
      end
  | CallFromMessage message =>
      match event.from_message message c with
      | Ok (_, c') => c'
      | Raise _ => c
      end
  end.

Definition bus_calls (calls : list bus_call) (c : event.cls) : event.cls :=
  foldl bus_step c calls.

(** A Dispatch message as the gateway sends it. *)
Definition dispatch_message (s : Z) (t : string) (d : items) : value :=
  VDict [("t", VStr t); ("s", VInt s); ("op", VInt 0); ("d", VDict d)].




(** Turns of the heartbeat loop one time unit apart, the first at [start],
    [n] of them; the send takes no time. *)
Fixpoint unit_ticks (start : Q) (n : nat) : list tick :=
  match n with
  | O => []
  | S n' => Tick start start start :: unit_ticks (start + 1) n'
  end.

(** The Heartbeat frames among the frames that went out. *)
Definition is_heartbeat (frame : value) : bool :=
  match subscript frame "op" with
  | Ok op => py_eq_int op 1
  | Raise _ => false
  end.

Definition heartbeats (frames : list value) : list value :=
  filter (fun f => is_heartbeat f = true) frames.

(** An object whose thread functions have nothing to work on yet: quiet
    socket, idle pool, empty log. *)
Definition quiet (interval_ms : Z) (c : event.cls) : state :=
  State true (-1) (VInt 0) 0 interval_ms EmptyString [] [] [] [] [] c.

(** The namespace [to_object] hands to [type] for a payload object. *)
Definition namespace (d : items) : items :=
  dict_of_items (map (fun kv => (kv.1, event.convert kv.2)) d).

(** The event [from_message] makes of the decoded payload's namespace [ns],
    member [e], sequence [s] and list object [l]: the three attributes are
    set in this order, over the payload's own. *)
Definition event_of (ns : items) (e : events) (s : value) (l : loc) : value :=
  VClass (dict_set (dict_set (dict_set ns "name" (VEnum e)) "sequence" s)
                   "subscriptions" (VListRef l)).

(** ** More of the connector *)


(** The texts of successive reads, joined as [data += ...] joins them. *)
Definition joined (data : string) (chunks : list string) : string :=
  foldl String.app data chunks.

(** *** The handshake *)

Definition set_heartbeat_interval (i : Z) (st : state) : state :=
  State (connected st) (ping st) (sequence st) (ping_start st) i (status st)
        (recv_script st) (send_script st) (sent st) (workers st) (log st)
        (bus st).

(** [_read_socket] while the socket is still blocking, as it is all through
    [connect]: the loop is the one of [read_loop], but when nothing is left
    to read [socket.recv()] waits, and the call does not come back
    ([None]). *)
Fixpoint read_loop_blocking (loads : string -> option value)
    (script : list recv_outcome) (data : string) (st : state)
  : option (result value * state) :=
  match script with
  | [] => None
  | RecvText s :: script' =>
      let data := String.app data s in
      if bool_decide (data = EmptyString)
      then Some (Ok VNone, set_recv_script script' st)
      else match loads (rstrip data) with
           | Some v => Some (Ok v, set_recv_script script' st)
           | None => read_loop_blocking loads script' data st
           end
  | RecvSSLError errno :: script' =>
      if bool_decide (errno = 2)
      then Some (Ok VNone, set_recv_script script' st)
      else Some (Raise (SSLError errno), set_recv_script script' st)
  | RecvOSError errno :: script' =>
      if bool_decide (errno = 104) then
        if negb (connected st)
        then Some (Ok VNone, set_recv_script script' st)
        else Some (Ok VNone,
                   set_recv_script script'
                     (set_connected false
                        (logger WARNING "READ: Connection reset by peer." st)))
      else if bool_decide (errno = 11)
      then Some (Ok VNone, set_recv_script script' st)
      else Some (Raise (OSError errno), set_recv_script script' st)
  | RecvClosed :: script' =>
      if negb (connected st) then Some (Ok VNone, set_recv_script script' st)
      else read_loop_blocking loads script' data
             (set_connected false
                (logger WARNING "READ: Websocket unexpectedly closed." st))
  end.

(** The Identify payload; [os] is what [platform.system()] gives. *)
Definition identify (token os : string) : value :=
  VDict [("op", VInt 2); ("v", VInt 6);
         ("d", VDict [("token", VStr token);
                      ("properties",
                       VDict [("$os", VStr os); ("$browser", VStr "Arcbot");
                              ("$device", VStr "Arcbot")]);
                      ("large_threshold", VInt 50);
                      ("compress", VBool false)])].

(** How [connect] stands when it is over, or that it is never over.  The
    field [heartbeat_interval] of the model holds an integer; a Hello
    payload with another kind of value there is outside the model. *)
Inductive connect_outcome :=
| ConnectBlocks
| ConnectRaises (e : exn) (st : state)
| Connected (st : state)
| ConnectNotModelled.

(** [connect], from the first log line to the second, that is up to the
    start of the two threads.  The socket of [st] is the one
    [websocket.create_connection] has just made; [token] is [self.token];
    [t1] and [t2] are the two readings of [time.monotonic()]. *)
Definition connect (loads : string -> option value) (token os : string)
    (t1 t2 : Q) (st : state) : connect_outcome :=
  let st := logger INFO "Attempting connection to Discord servers" st in
  match read_loop_blocking loads (recv_script st) EmptyString st with
  | None => ConnectBlocks
  | Some (Raise e, st) => ConnectRaises e st
  | Some (Ok hello_payload, st) =>
      match d <- subscript hello_payload "d" ;;
            subscript d "heartbeat_interval" with
      | Raise e => ConnectRaises e st
      | Ok (VInt interval) =>
          let st := set_heartbeat_interval interval st in
          let st := set_ping_start t1 st in
          match _write_socket (VDict [("op", VInt 1); ("d", sequence st)]) st
          with
          | (Raise e, st) => ConnectRaises e st
          | (Ok _, st) =>
              match read_loop_blocking loads (recv_script st) EmptyString st
              with
              | None => ConnectBlocks
              | Some (Raise e, st) => ConnectRaises e st
              | Some (Ok ack, st) =>
                  let st := set_ping (latency (ping_start st) t2) st in
                  match _write_socket (identify token os) st with
                  | (Raise e, st) => ConnectRaises e st
                  | (Ok _, st) =>
                      Connected
                        (logger INFO "Succesful login to Discord"
                                (set_connected true st))
                  end
              end
          end
      | Ok _ => ConnectNotModelled
      end
  end.

(** *** The REST client and the calls that use it *)

Inductive http_method := GET | POST.

(** A call of [requests.get] or [requests.post]: the verb, the address, the
    headers and the text given as [data]. *)
Record request := Request {
  verb : http_method;
  uri : string;
  headers : list (string * string);
  data : option string
}.

(** What comes back: a response with its status code and, when its body is
    JSON, the document; or none, [requests] raising instead. *)
Inductive response :=
| Response (status_code : Z) (json : option value)
| NoResponse.

(** What a call of the client can end with, other than its result. *)
Inductive failure :=
| Py (e : exn)
| HTTPError (status_code : Z)
| RequestException.

Inductive answer (A : Type) :=
| Done (a : A)
| Failed (f : failure).
Arguments Done {A} a.
Arguments Failed {A} f.

(** What the calls are made in: [json.dumps], the text [str(e)] of an
    exception, and the server. *)
Record environment := Environment {
  json_dumps : value -> result string;
  str_of : failure -> string;
  server : request -> response
}.

(** [requests.<verb>(...)] followed by [response.raise_for_status()], which
    raises for the status codes from 400 to 599. *)
Definition perform (env : environment) (rq : request) : answer response :=
  match server env rq with
  | NoResponse => Failed RequestException
  | Response code json =>
      if (400 <=? code) && (code <? 600) then Failed (HTTPError code)
      else Done (Response code json)
  end.

(** [response.json()] *)
Definition response_json (r : response) : answer value :=
  match r with
  | Response _ (Some v) => Done v
  | _ => Failed (Py ValueError)
  end.

(** The [message_data] argument of [create_message]: a text, or a
    dictionary. *)
Inductive message_data :=
| Text (s : string)
| Document (d : items).

Module api.

Definition base_url : string := "https://discordapp.com/api".

Definition auth_headers (token : string) : list (string * string) :=
  [("authorization", String.app "Bot " token);
   ("Content-Type", "application/json")].

(** [create_message]: the request made, if it gets that far, and how the
    call ends. *)
Definition create_message (env : environment) (token : string)
    (channel_id : string) (message : message_data)
  : answer unit * list request :=
  let uri := String.app base_url
               (String.app "/channels/" (String.app channel_id "/messages")) in
  match match message with
        | Text s => Ok s
        | Document d => json_dumps env (VDict d)
        end with
  | Raise e => (Failed (Py e), [])
  | Ok text =>
      let rq := Request POST uri (auth_headers token) (Some text) in
      match perform env rq with
      | Failed f => (Failed f, [rq])
      | Done _ => (Done tt, [rq])
      end
  end.

(** [create_dm] *)
Definition create_dm (env : environment) (token : string) (user_id : string)
  : answer value * list request :=
  let uri := String.app base_url "/users/@me/channels" in
  match json_dumps env (VDict [("recipient_id", VStr user_id)]) with
  | Raise e => (Failed (Py e), [])
  | Ok text =>
      let rq := Request POST uri (auth_headers token) (Some text) in
      match perform env rq with
      | Failed f => (Failed f, [rq])
      | Done r => (response_json r, [rq])
      end
  end.

End api.

(** The loop of [say] over the mentions: each goes in front of the message
    built so far. *)
Definition with_mentions (message : string) (mentions : list string)
  : string :=
  foldl (fun message user =>
           String.app (String.app "<@" (String.app user "> ")) message)
        message mentions.

(** [say]; the user identifiers in [mentions] are strings.  Beside the
    result and the object come the requests made. *)
Definition say (env : environment) (token : string) (channel_id : value)
    (message : string) (embed : value) (mentions : list string) (st : state)
  : result unit * state * list request :=
  match channel_id with
  | VStr channel =>
      let st := logger DEBUG
                  (String.app "Sending message to channel " channel) st in
      let message := with_mentions message mentions in
      let message_data :=
        VDict [("content", VStr message); ("embed", embed);
               ("mentions", VList (VStr <$> mentions))] in
      let (tried, requests) :=
        match json_dumps env message_data with
        | Raise e => (Failed (Py e), [])
        | Ok text => api.create_message env token channel (Text text)
        end in
      match tried with
      | Done _ => (Ok tt, st, requests)
      | Failed f =>
          (Ok tt,
           logger WARNING
             (String.app "Send message to channel '"
                (String.app channel
                   (String.app "' failed: " (str_of env f)))) st,
           requests)
      end
  | _ => (Raise TypeError, st, [])
  end.

(** [whisper]; the user identifier is a string. *)
Definition whisper (env : environment) (token : string) (user_id : string)
    (message : string) (embed : value) (mentions : list string) (st : state)
  : answer unit * state * list request :=
  match api.create_dm env token user_id with
  | (Failed f, requests) => (Failed f, st, requests)
  | (Done channel, requests) =>
      match subscript channel "id" with
      | Raise e => (Failed (Py e), st, requests)
      | Ok channel_id =>
          match say env token channel_id message embed mentions st with
          | (Raise e, st, requests') =>
              (Failed (Py e), st, requests ++ requests')
          | (Ok _, st, requests') => (Done tt, st, requests ++ requests')
          end
      end
  end.

(** The mentions of the users, in the order given, as one text. *)
Definition mention_text (users : list string) : string :=
  foldr (fun user rest =>
           String.app (String.app "<@" (String.app user "> ")) rest)
        EmptyString users.

(** * Properties *)

(** ** Dictionaries *)




Lemma dict_get_set_eq (d : items) k v : dict_get (dict_set d k v) k = Some v.
Proof.
  induction d as [|[k' v'] d IH]; simpl.
  - by rewrite decide_True.
  - destruct (decide (k' = k)) as [->|Hne]; simpl.
    + by rewrite decide_True.
    + by rewrite decide_False.
Qed.

Lemma dict_get_set_ne (d : items) k k' v :
  k <> k' -> dict_get (dict_set d k v) k' = dict_get d k'.
Proof.
  intros Hne. induction d as [|[k0 v0] d IH]; simpl.
  - by rewrite decide_False.
  - destruct (decide (k0 = k)) as [->|Hne0]; simpl.
    + by rewrite !decide_False.
    + destruct (decide (k0 = k')); [reflexivity | exact IH].
Qed.

(** ** The payload decoder *)

Lemma convert_dict (d : items) :
  event.convert (VDict d) =
  VClass (dict_of_items (map (fun kv => (kv.1, event.convert kv.2)) d)).
Proof.
  simpl. do 2 f_equal.
  induction d as [|[k v] d IH]; simpl; [reflexivity | by rewrite IH].
Qed.




(** ** The subscription registry *)

Section registry.
Import event.
Implicit Types (c : cls) (k : events) (cb : callback).

Lemma wf_init : wf init.
Proof. intros k l H. cbn in H. by rewrite lookup_empty in H. Qed.

Lemma subscribe_bound c k cb l :
  subscriptions c !! k = Some l ->
  subscribe k cb c =
    Cls (<[l := heap c !!! l ++ [cb]]> (heap c)) (subscriptions c).
Proof. intros H. unfold subscribe. by rewrite H. Qed.

Lemma subscribe_first_use c k cb :
  subscriptions c !! k = None ->
  subscribe k cb c =
    Cls (heap c ++ [[cb]]) (<[k := length (heap c)]> (subscriptions c)).
Proof. intros H. unfold subscribe. by rewrite H. Qed.

Lemma wf_subscribe c k cb : wf c -> wf (subscribe k cb c).
Proof.
  intros Hwf. destruct (subscriptions c !! k) as [l|] eqn:Hk.
  - rewrite (subscribe_bound _ _ _ _ Hk). intros k1 l1 H1. simpl in *.
    rewrite length_insert. exact (Hwf k1 l1 H1).
  - rewrite (subscribe_first_use _ _ _ Hk). intros k1 l1 H1. simpl in *.
    rewrite length_app. simpl.
    destruct (decide (k = k1)) as [<-|Hne].
    + rewrite lookup_insert_eq in H1. injection H1 as <-.
      split; [lia|]. intros k' H'.
      destruct (decide (k = k')) as [<-|Hne']; [reflexivity|].
      rewrite lookup_insert_ne in H' by done.
      apply Hwf in H' as [Hlt _]. lia.
    + rewrite lookup_insert_ne in H1 by done.
      destruct (Hwf k1 l1 H1) as [Hlt Hinj]. split; [lia|].
      intros k' H'. destruct (decide (k = k')) as [<-|Hne'].
      * rewrite lookup_insert_eq in H'. injection H' as <-. lia.
      * rewrite lookup_insert_ne in H' by done. by apply Hinj.
Qed.

Lemma registered_subscribe c k cb :
  wf c -> registered k (subscribe k cb c) = registered k c ++ [cb].
Proof.
  intros Hwf. unfold registered at 2.
  destruct (subscriptions c !! k) as [l|] eqn:Hk.
  - rewrite (subscribe_bound _ _ _ _ Hk). unfold registered. simpl.
    rewrite Hk. apply list_lookup_total_insert_eq. by apply (Hwf k l).
  - rewrite (subscribe_first_use _ _ _ Hk). unfold registered. simpl.
    rewrite lookup_insert_eq. by rewrite list_lookup_total_middle.
Qed.

Lemma registered_subscribe_other c k k' cb :
  wf c -> k <> k' -> registered k' (subscribe k cb c) = registered k' c.
Proof.
  intros Hwf Hne. unfold registered at 2.
  destruct (subscriptions c !! k) as [l|] eqn:Hk.
  - rewrite (subscribe_bound _ _ _ _ Hk). unfold registered. simpl.
    destruct (subscriptions c !! k') as [l'|] eqn:Hk'; [|reflexivity].
    apply list_lookup_total_insert_ne. intros ->.
    destruct (Hwf k l' Hk) as [_ Hinj]. by specialize (Hinj k' Hk').
  - rewrite (subscribe_first_use _ _ _ Hk). unfold registered. simpl.
    rewrite lookup_insert_ne by done.
    destruct (subscriptions c !! k') as [l'|] eqn:Hk'; [|reflexivity].
    apply lookup_total_app_l. by apply (Hwf k' l').
Qed.

Lemma wf_subscribe_all c k cbs :
  wf c -> wf (foldl (fun c cb => subscribe k cb c) c cbs).
Proof.
  revert c. induction cbs as [|cb cbs IH]; intros c Hwf; simpl; [done|].
  by apply IH, wf_subscribe.
Qed.


(** [unsubscribe] on a key that has a list. *)
Lemma unsubscribe_bound c k cb l :
  subscriptions c !! k = Some l ->
  unsubscribe k cb c =
    (xs <- list_remove cb (heap c !!! l) ;;
     Ok (Cls (<[l := xs]> (heap c)) (subscriptions c))).
Proof. intros H. unfold unsubscribe. by rewrite H. Qed.

Lemma unsubscribe_no_list c k cb :
  subscriptions c !! k = None -> unsubscribe k cb c = Ok c.
Proof. intros H. unfold unsubscribe. by rewrite H. Qed.

Lemma list_remove_absent cb (l : list callback) :
  cb ∉ l -> list_remove cb l = Raise ValueError.
Proof.
  induction l as [|y l IH]; simpl; intros Hn; [reflexivity|].
  apply not_elem_of_cons in Hn as [Hne Hn].
  rewrite decide_False by congruence. by rewrite IH.
Qed.

Lemma list_remove_present cb (l : list callback) :
  cb ∈ l ->
  exists l1 l2, l = l1 ++ (cb :: l2) /\ (cb ∉ l1) /\
                list_remove cb l = Ok (l1 ++ l2).
Proof.
  induction l as [|y l IH]; intros Hin; [by apply elem_of_nil in Hin|].
  simpl. destruct (decide (y = cb)) as [->|Hne].
  - exists [], l. split; [reflexivity|]. split; [apply not_elem_of_nil|done].
  - apply elem_of_cons in Hin as [->|Hin]; [done|].
    destruct (IH Hin) as (l1 & l2 & -> & Hn & ->).
    exists (y :: l1), l2. split; [reflexivity|]. split; [|reflexivity].
    apply not_elem_of_cons. split; [congruence | exact Hn].
Qed.

Lemma list_remove_once cb (l l' : list callback) :
  list_remove cb l = Ok l' ->
  (count_occ callback_eq_dec l cb <= 1)%nat ->
  cb ∉ l'.
Proof.
  intros Hrem Hcount. destruct (decide (cb ∈ l)) as [Hin|Hn].
  - destruct (list_remove_present _ _ Hin) as (l1 & l2 & -> & Hn1 & Heq).
    rewrite Heq in Hrem. injection Hrem as <-.
    rewrite count_occ_app, count_occ_cons_eq in Hcount by reflexivity.
    apply not_elem_of_app. split; [exact Hn1|].
    rewrite list_elem_of_In. apply (count_occ_not_In callback_eq_dec). lia.
  - by rewrite list_remove_absent in Hrem.
Qed.

Lemma unsubscribe_absent c k cb l :
  subscriptions c !! k = Some l -> cb ∉ heap c !!! l ->
  unsubscribe k cb c = Raise ValueError.
Proof.
  intros Hk Hn. rewrite (unsubscribe_bound _ _ _ _ Hk).
  by rewrite list_remove_absent.
Qed.

Lemma unsubscribe_ok c k cb c' :
  wf c -> unsubscribe k cb c = Ok c' ->
  wf c' /\ subscriptions c' = subscriptions c /\
  (forall l, subscriptions c !! k = Some l ->
             list_remove cb (registered k c) = Ok (registered k c')).
Proof.
  intros Hwf Hun. destruct (subscriptions c !! k) as [l|] eqn:Hk.
  - rewrite (unsubscribe_bound _ _ _ _ Hk) in Hun.
    destruct (list_remove cb (heap c !!! l)) as [xs|e] eqn:Hrem;
      simpl in Hun; [|discriminate].
    injection Hun as <-. split; [|split; [reflexivity|]].
    + intros k1 l1 H1. simpl in *. rewrite length_insert. by apply Hwf.
    + intros l0 Hl0. injection Hl0 as <-. unfold registered. simpl.
      rewrite Hk, Hrem. f_equal. symmetry.
      apply list_lookup_total_insert_eq. by apply (Hwf k l).
  - rewrite (unsubscribe_no_list _ _ _ Hk) in Hun. injection Hun as <-.
    split; [done|]. split; [reflexivity|]. intros l Hl. discriminate.
Qed.

End registry.

(** ** Decoding a message *)

Section decoding.
Import event.
Implicit Types (c : cls) (k e : events) (cb : callback).

Lemma to_object_dict (d : items) : to_object (VDict d) = VClass (namespace d).
Proof. unfold to_object. apply convert_dict. Qed.

Lemma from_message_ok message c d ns t e s :
  subscript message "d" = Ok d ->
  to_object d = VClass ns ->
  subscript message "t" = Ok (VStr t) ->
  events_getattr (VStr t) = Ok e ->
  subscript message "s" = Ok s ->
  from_message message c =
    Ok (event_of ns e s (subscriptions_get e c).1, (subscriptions_get e c).2).
Proof.
  intros Hd Hns Ht He Hs. unfold from_message.
  rewrite Hd. cbn [bind]. rewrite Hns, Ht. cbn [bind].
  rewrite He. cbn [bind setattr]. rewrite Hs. cbn [bind].
  by destruct (subscriptions_get e c).
Qed.

Lemma from_message_inv message c ev c1 :
  from_message message c = Ok (ev, c1) ->
  exists d ns t e s,
    subscript message "d" = Ok d /\
    to_object d = VClass ns /\
    subscript message "t" = Ok (VStr t) /\
    events_getattr (VStr t) = Ok e /\
    subscript message "s" = Ok s /\
    ev = event_of ns e s (subscriptions_get e c).1 /\
    c1 = (subscriptions_get e c).2.
Proof.
  unfold from_message. intros H.
  destruct (subscript message "d") as [d|] eqn:Hd; [|discriminate].
  cbn [bind] in H.
  destruct (subscript message "t") as [t|] eqn:Ht; [|discriminate].
  cbn [bind] in H.
  destruct (events_getattr t) as [e|] eqn:He; [|discriminate].
  cbn [bind] in H.
  destruct (to_object d) as [| | | | |?|ns| |] eqn:Hobj; try discriminate.
  cbn [bind setattr] in H.
  destruct (subscript message "s") as [s|] eqn:Hs; [|discriminate].
  cbn [bind] in H.
  destruct (subscriptions_get e c) as [l c'] eqn:Hget. cbn [bind] in H.
  injection H as <- <-.
  assert (exists t', t = VStr t') as [t' ->].
  { destruct t; try discriminate. by eexists. }
  exists d, ns, t', e, s. rewrite Hget. by repeat split.
Qed.

Lemma event_of_sequence d e s l : getattr (event_of d e s l) "sequence" = Ok s.
Proof.
  unfold event_of, getattr.
  rewrite dict_get_set_ne by discriminate. by rewrite dict_get_set_eq.
Qed.

Lemma event_of_name d e s l : getattr (event_of d e s l) "name" = Ok (VEnum e).
Proof.
  unfold event_of, getattr.
  rewrite !dict_get_set_ne by discriminate. by rewrite dict_get_set_eq.
Qed.

Lemma event_of_subscriptions d e s l :
  getattr (event_of d e s l) "subscriptions" = Ok (VListRef l).
Proof. unfold event_of, getattr. by rewrite dict_get_set_eq. Qed.


Lemma subscribers_event_of d e s l c :
  subscribers (event_of d e s l) c = Ok (heap c !!! l).
Proof. unfold subscribers. by rewrite event_of_subscriptions. Qed.

Lemma subscriptions_get_bound c e l :
  subscriptions c !! e = Some l -> subscriptions_get e c = (l, c).
Proof. intros H. unfold subscriptions_get. by rewrite H. Qed.

Lemma subscriptions_get_none c e :
  subscriptions c !! e = None ->
  subscriptions_get e c =
    (length (heap c), Cls (heap c ++ [[]]) (subscriptions c)).
Proof. intros H. unfold subscriptions_get. by rewrite H. Qed.

Lemma subscriptions_get_registry c e :
  subscriptions (subscriptions_get e c).2 = subscriptions c.
Proof. unfold subscriptions_get. by destruct (subscriptions c !! e). Qed.

(** What the event's list reads as, right after decoding. *)
Lemma subscriptions_get_registered c e :
  wf c ->
  heap (subscriptions_get e c).2 !!! (subscriptions_get e c).1 =
  registered e c.
Proof.
  intros Hwf. unfold subscriptions_get, registered.
  destruct (subscriptions c !! e) as [l|] eqn:Hk; simpl; [reflexivity|].
  by rewrite list_lookup_total_middle.
Qed.

Lemma wf_subscriptions_get c e : wf c -> wf (subscriptions_get e c).2.
Proof.
  intros Hwf. unfold subscriptions_get.
  destruct (subscriptions c !! e) as [l|] eqn:Hk; simpl; [done|].
  intros k1 l1 H1. simpl in *. rewrite length_app. simpl.
  destruct (Hwf k1 l1 H1) as [Hlt Hinj]. split; [lia | exact Hinj].
Qed.

(** A key keeps the list object it was first given. *)
Lemma bus_step_keeps_binding c call e l :
  subscriptions c !! e = Some l ->
  subscriptions (bus_step c call) !! e = Some l.
Proof.
  intros He. destruct call as [k cb|k cb|m]; simpl.
  - destruct (subscriptions c !! k) as [l'|] eqn:Hk.
    + by rewrite (subscribe_bound _ _ _ _ Hk).
    + rewrite (subscribe_first_use _ _ _ Hk). simpl.
      rewrite lookup_insert_ne; [done|]. intros ->. congruence.
  - destruct (subscriptions c !! k) as [l'|] eqn:Hk.
    + rewrite (unsubscribe_bound _ _ _ _ Hk).
      by destruct (list_remove cb (heap c !!! l')).
    + by rewrite (unsubscribe_no_list _ _ _ Hk).
  - destruct (from_message m c) as [[ev c1]|] eqn:Hm; [|done].
    apply from_message_inv in Hm
      as (? & ? & ? & e' & ? & _ & _ & _ & _ & _ & _ & ->).
    by rewrite subscriptions_get_registry.
Qed.

Lemma bus_calls_keep_binding calls c e l :
  subscriptions c !! e = Some l ->
  subscriptions (bus_calls calls c) !! e = Some l.
Proof.
  revert c. induction calls as [|call calls IH]; intros c He; [done|].
  simpl. by apply IH, bus_step_keeps_binding.
Qed.

Lemma wf_bus_step c call : wf c -> wf (bus_step c call).
Proof.
  intros Hwf. destruct call as [k cb|k cb|m]; simpl.
  - by apply wf_subscribe.
  - destruct (unsubscribe k cb c) as [c'|] eqn:Hun; [|done].
    by destruct (unsubscribe_ok _ _ _ _ Hwf Hun).
  - destruct (from_message m c) as [[ev c1]|] eqn:Hm; [|done].
    apply from_message_inv in Hm
      as (? & ? & ? & e' & ? & _ & _ & _ & _ & _ & _ & ->).
    by apply wf_subscriptions_get.
Qed.

(** Every state the class reaches from the empty registry is well formed. *)
Lemma wf_bus_calls calls : wf (bus_calls calls init).
Proof.
  unfold bus_calls. generalize wf_init. generalize init.
  induction calls as [|call calls IH]; intros c Hwf; [done|].
  simpl. by apply IH, wf_bus_step.
Qed.

End decoding.

(** ** Subscribing, unsubscribing and resolving *)

Section resolving.
Import event.
Implicit Types (c : cls) (k e : events) (cb : callback).

(** The member an event was decoded for. *)
Lemma event_of_name_inj ns e e' s l :
  getattr (event_of ns e s l) "name" = Ok (VEnum e') -> e' = e.
Proof. rewrite event_of_name. congruence. Qed.

(** Right after decoding, the event's subscribers are the registered list
    of its type. *)
Lemma decoded_subscribers c message ev c1 e :
  wf c ->
  from_message message c = Ok (ev, c1) ->
  getattr ev "name" = Ok (VEnum e) ->
  subscribers ev c1 = Ok (registered e c) /\ wf c1 /\
  subscriptions c1 = subscriptions c /\
  forall k, registered k c1 = registered k c.
Proof.
  intros Hwf Hm Hname.
  apply from_message_inv in Hm
    as (d & ns & t & e0 & s & _ & _ & _ & _ & _ & -> & ->).
  apply event_of_name_inj in Hname as ->.
  rewrite subscribers_event_of, subscriptions_get_registered by done.
  split; [reflexivity|]. split; [by apply wf_subscriptions_get|].
  split; [apply subscriptions_get_registry|].
  intros k. unfold registered. rewrite subscriptions_get_registry.
  destruct (subscriptions c !! k) as [l|] eqn:Hk; [|reflexivity].
  unfold subscriptions_get.
  destruct (subscriptions c !! e0); simpl; [reflexivity|].
  apply lookup_total_app_l. by apply (Hwf k l).
Qed.


End resolving.



(** C5: a second [unsubscribe] of a callback, or the [unsubscribe] of one
    never subscribed for a key that has a list, raises [ValueError]; only
    the call for a key without a list returns with the registry as it
    was. *)
Theorem unsubscribe_absent_raises :
  let c := event.subscribe MESSAGE_CREATE (Callback 1) event.init in
  event.unsubscribe MESSAGE_CREATE (Callback 2) c = Raise ValueError /\
  event.unsubscribe GUILD_CREATE (Callback 2) c = Ok c /\
  exists c',
    event.unsubscribe MESSAGE_CREATE (Callback 1) c = Ok c' /\
    event.registered MESSAGE_CREATE c' = [] /\
    event.unsubscribe MESSAGE_CREATE (Callback 1) c' = Raise ValueError.
Proof.
  split; [reflexivity|]. split; [reflexivity|].
  eexists. split; [reflexivity|]. split; reflexivity.
Qed.

(** C1, as stated, fails: the event decoded for a type holds the registered
    list object itself, so a [subscribe] or an [unsubscribe] made after the
    decoding changes the event's subscribers; and an [unsubscribe] that
    returns leaves a callback subscribed twice in the list, to which the
    next decoded event still delivers. *)
Lemma decoded_event_is_not_a_snapshot :
  let cbA := Callback 1 in
  let cbB := Callback 2 in
  let message := dispatch_message 5 "MESSAGE_CREATE" [] in
  (let c := event.subscribe MESSAGE_CREATE cbA event.init in
   exists ev c1 c2,
     event.from_message message c = Ok (ev, c1) /\
     event.subscribers ev c1 = Ok [cbA] /\
     event.subscribers ev (event.subscribe MESSAGE_CREATE cbB c1)
       = Ok [cbA; cbB] /\
     event.unsubscribe MESSAGE_CREATE cbA c1 = Ok c2 /\
     event.subscribers ev c2 = Ok []) /\
  (let c := event.subscribe MESSAGE_CREATE cbA
              (event.subscribe MESSAGE_CREATE cbA event.init) in
   exists c' ev c1,
     event.unsubscribe MESSAGE_CREATE cbA c = Ok c' /\
     event.from_message message c' = Ok (ev, c1) /\
     event.subscribers ev c1 = Ok [cbA]).
Proof.
  split.
  - eexists _, _, _. repeat split; reflexivity.
  - eexists _, _, _. repeat split; reflexivity.
Qed.

(** C1, amended: the subscribers resolved for a decoded event are the list
    registered for its type, empty when there is none; when the type has a
    list, the event holds that list object and not a copy, so that after any
    later calls on the registry the event's subscribers are what is then
    registered for the type.  Once [unsubscribe] has returned, the event
    decoded next for the type has the registered list less the first
    occurrence of the callback, and does not deliver to a callback that was
    in the list once. *)
Theorem decoded_event_shares_registered_list :
  (forall c message ev c1 e,
      event.wf c ->
      event.from_message message c = Ok (ev, c1) ->
      getattr ev "name" = Ok (VEnum e) ->
      event.subscribers ev c1 = Ok (event.registered e c) /\
      (is_Some (event.subscriptions c !! e) ->
       forall calls,
         event.subscribers ev (bus_calls calls c1) =
         Ok (event.registered e (bus_calls calls c1)))) /\
  (forall c e cb c' message ev c1,
      event.wf c ->
      event.unsubscribe e cb c = Ok c' ->
      event.from_message message c' = Ok (ev, c1) ->
      getattr ev "name" = Ok (VEnum e) ->
      exists cbs,
        event.subscribers ev c1 = Ok cbs /\
        (is_Some (event.subscriptions c !! e) ->
         list_remove cb (event.registered e c) = Ok cbs) /\
        ((count_occ callback_eq_dec (event.registered e c) cb <= 1)%nat ->
         cb ∉ cbs)).
Proof.
  split.
  - intros c message ev c1 e Hwf Hm Hname.
    split; [by apply (decoded_subscribers c message)|].
    intros [l Hl] calls.
    apply from_message_inv in Hm
      as (d & ns & t & e0 & s & _ & _ & _ & _ & _ & -> & ->).
    apply event_of_name_inj in Hname as ->.
    rewrite (subscriptions_get_bound _ _ _ Hl). simpl.
    rewrite subscribers_event_of. unfold event.registered.
    by rewrite (bus_calls_keep_binding calls c e0 l Hl).
  - intros c e cb c' message ev c1 Hwf Hun Hm Hname.
    destruct (unsubscribe_ok _ _ _ _ Hwf Hun) as (Hwf' & Hsub & Hrem).
    destruct (decoded_subscribers _ _ _ _ _ Hwf' Hm Hname) as (Hs & _).
    exists (event.registered e c'). split; [exact Hs|]. split.
    + intros [l Hl]. by apply (Hrem l).
    + intros Hcount. destruct (event.subscriptions c !! e) as [l|] eqn:Hl.
      * apply (list_remove_once cb (event.registered e c));
          [exact (Hrem l eq_refl) | exact Hcount].
      * rewrite (unsubscribe_no_list _ _ _ Hl) in Hun. injection Hun as <-.
        unfold event.registered. rewrite Hl. apply not_elem_of_nil.
Qed.

Lemma decoded_event_shares_registered_list_witness :
  let cbA := Callback 1 in
  let cbB := Callback 2 in
  let message := dispatch_message 5 "MESSAGE_CREATE" [] in
  let c := event.subscribe MESSAGE_CREATE cbB
             (event.subscribe MESSAGE_CREATE cbA event.init) in
  let ev := event_of [] MESSAGE_CREATE (VInt 5) 0%nat in
  event.subscribers ev
    (bus_calls [CallSubscribe MESSAGE_CREATE (Callback 3);
                CallUnsubscribe MESSAGE_CREATE cbA] c) =
  Ok (event.registered MESSAGE_CREATE
        (bus_calls [CallSubscribe MESSAGE_CREATE (Callback 3);
                    CallUnsubscribe MESSAGE_CREATE cbA] c)) /\
  exists c' cbs,
    event.unsubscribe MESSAGE_CREATE cbA c = Ok c' /\
    event.subscribers ev c' = Ok cbs /\ cbA ∉ cbs.
Proof.
  intros cbA cbB message c ev.
  destruct decoded_event_shares_registered_list as [Halias Hunsub].
  assert (Hwf : event.wf c) by (do 2 apply wf_subscribe; apply wf_init).
  split.
  - apply (Halias c message ev c MESSAGE_CREATE Hwf);
      [reflexivity | reflexivity | by eexists].
  - destruct (Hunsub c MESSAGE_CREATE cbA
                (event.Cls [[cbB]] (event.subscriptions c)) message ev
                (event.Cls [[cbB]] (event.subscriptions c)) Hwf)
      as (cbs & Hs & _ & Hn); [reflexivity | reflexivity | reflexivity |].
    eexists _, cbs. split; [reflexivity|]. split; [exact Hs|].
    apply Hn. vm_compute. lia.
Defined.

(** ** The message handler *)

Lemma set_workers_id st : set_workers (workers st) st = st.
Proof. by destruct st. Qed.

Lemma queue_all ev cbs st :
  foldl (fun st cb => queue (Call cb ev) st) st cbs =
  set_workers (workers st ++ map (fun cb => Call cb ev) cbs) st.
Proof.
  revert st. induction cbs as [|cb cbs IH]; intros st; simpl.
  - by rewrite app_nil_r, set_workers_id.
  - rewrite IH. unfold queue, set_workers. simpl. by rewrite <- app_assoc.
Qed.

(** The Dispatch branch, when the message decodes. *)
Lemma handle_dispatch monotonic message st ns e s l c1 :
  subscript message "op" = Ok (VInt 0) ->
  event.from_message message (bus st) = Ok (event_of ns e s l, c1) ->
  handle_gateway_message monotonic message st =
    (Ok tt,
     set_workers
       (workers st ++ map (fun cb => Call cb (event_of ns e s l))
                          (event.heap c1 !!! l))
       (set_sequence s (set_bus c1 st))).
Proof.
  intros Hop Hm. unfold handle_gateway_message. rewrite Hop. cbn [py_eq_int].
  rewrite bool_decide_eq_true_2 by reflexivity. rewrite Hm.
  rewrite event_of_sequence. cbn zeta.
  rewrite subscribers_event_of. by rewrite queue_all.
Qed.


(** C3: handling the Dispatch frame with sequence 5, event name
    MESSAGE_CREATE and payload [{content: "hi"}] while one callback is
    registered for MESSAGE_CREATE puts exactly one submission in the pool,
    of that callback with an event whose [sequence] is 5 and whose [content]
    is "hi", and leaves 5 as the stored sequence.  For any Dispatch frame
    that decodes, the pool receives one submission per subscriber of the
    event, each with the event, in the order of the list. *)
Theorem dispatch_submits_each_subscriber :
  (forall st cb monotonic,
      event.wf (bus st) ->
      event.registered MESSAGE_CREATE (bus st) = [cb] ->
      exists ev st',
        handle_gateway_message monotonic
          (dispatch_message 5 "MESSAGE_CREATE" [("content", VStr "hi")]) st
          = (Ok tt, st') /\
        workers st' = workers st ++ [Call cb ev] /\
        getattr ev "sequence" = Ok (VInt 5) /\
        getattr ev "content" = Ok (VStr "hi") /\
        getattr ev "name" = Ok (VEnum MESSAGE_CREATE) /\
        sequence st' = VInt 5) /\
  (forall st message monotonic ev c1 e,
      event.wf (bus st) ->
      subscript message "op" = Ok (VInt 0) ->
      event.from_message message (bus st) = Ok (ev, c1) ->
      getattr ev "name" = Ok (VEnum e) ->
      exists st',
        handle_gateway_message monotonic message st = (Ok tt, st') /\
        workers st' =
          workers st ++
          map (fun cb => Call cb ev) (event.registered e (bus st)) /\
        getattr ev "sequence" = Ok (sequence st') /\
        connected st' = connected st).
Proof.
  split.
  - intros st cb monotonic Hwf Hreg.
    set (message := dispatch_message 5 "MESSAGE_CREATE" [("content", VStr "hi")]).
    pose proof (from_message_ok message (bus st) _ _ "MESSAGE_CREATE"
                  MESSAGE_CREATE (VInt 5) eq_refl
                  (to_object_dict [("content", VStr "hi")]) eq_refl eq_refl
                  eq_refl) as Hm.
    eexists _, _.
    split; [apply (handle_dispatch monotonic message st _ _ _ _ _ eq_refl Hm)|].
    rewrite subscriptions_get_registered, Hreg by done.
    repeat split; reflexivity.
  - intros st message monotonic ev c1 e Hwf Hop Hm Hname.
    pose proof Hm as Hinv. apply from_message_inv in Hinv
      as (d & ns & t & e0 & s & _ & _ & _ & _ & _ & -> & ->).
    apply event_of_name_inj in Hname as ->.
    eexists. split; [apply (handle_dispatch _ _ _ _ _ _ _ _ Hop Hm)|].
    rewrite subscriptions_get_registered by done.
    repeat split; try reflexivity; apply event_of_sequence.
Qed.

Lemma dispatch_submits_each_subscriber_witness :
  let c := event.subscribe MESSAGE_CREATE (Callback 1) event.init in
  let c2 := event.subscribe GUILD_CREATE (Callback 3)
              (event.subscribe GUILD_CREATE (Callback 2) c) in
  (exists ev st',
      handle_gateway_message 0
        (dispatch_message 5 "MESSAGE_CREATE" [("content", VStr "hi")])
        (quiet 41250 c)
        = (Ok tt, st') /\
      workers st' = [Call (Callback 1) ev] /\
      getattr ev "sequence" = Ok (VInt 5) /\
      getattr ev "content" = Ok (VStr "hi") /\
      sequence st' = VInt 5) /\
  (let message := dispatch_message 6 "GUILD_CREATE" [("id", VInt 9)] in
   let ev := event_of [("id", VInt 9)] GUILD_CREATE (VInt 6) 1%nat in
   exists st',
     handle_gateway_message 0 message (quiet 41250 c2) = (Ok tt, st') /\
     workers st' = [Call (Callback 2) ev; Call (Callback 3) ev]).
Proof.
  intros c c2.
  destruct dispatch_submits_each_subscriber as [Hscenario Hgeneral].
  split.
  - destruct (Hscenario (quiet 41250 c) (Callback 1) 0%Q)
      as (ev & st' & H1 & H2 & H3 & H4 & _ & H5).
    + apply wf_subscribe, wf_init.
    + reflexivity.
    + exists ev, st'. by repeat split.
  - intros message ev.
    destruct (Hgeneral (quiet 41250 c2) message 0%Q ev c2 GUILD_CREATE)
      as (st' & H1 & H2 & _); try reflexivity.
    + do 3 apply wf_subscribe. apply wf_init.
    + exists st'. split; [exact H1 | exact H2].
Defined.

(** ** The stored sequence *)



(** What a send leaves of the object. *)
Lemma write_socket_effect data st r st' :
  _write_socket data st = (r, st') ->
  sequence st' = sequence st /\ ping st' = ping st /\
  ping_start st' = ping_start st /\
  (sent st' = sent st \/ sent st' = sent st ++ [data]) /\
  (connected st = false -> connected st' = false).
Proof.
  unfold _write_socket. intros H.
  destruct st as [conn p sq ps hi stt rs ss se w lg b]. cbn in H.
  destruct (hd SendOk ss) as [|errno|].
  - injection H as <- <-. cbn. auto 6.
  - destruct (bool_decide (errno = 104)).
    + destruct conn; cbn in H; injection H as <- <-; cbn; auto 6.
    + injection H as <- <-. cbn. auto 6.
  - destruct conn; cbn in H; injection H as <- <-; cbn; auto 6.
Qed.

Lemma is_heartbeat_frame s :
  is_heartbeat (VDict [("op", VInt 1); ("d", s)]) = true.
Proof. reflexivity. Qed.

Lemma heartbeats_app l1 l2 : heartbeats (l1 ++ l2) = heartbeats l1 ++ heartbeats l2.
Proof. apply filter_app. Qed.

(** What one turn of the heartbeat loop sends. *)
Lemma heartbeat_body_sent interval_ms tk last_heartbeat st r st' :
  heartbeat_body interval_ms tk last_heartbeat st = (r, st') ->
  sequence st' = sequence st /\
  exists new,
    sent st' = sent st ++ new /\
    Forall (fun f => f = VDict [("op", VInt 1); ("d", sequence st)])
           (heartbeats new) /\
    (heartbeat_due interval_ms last_heartbeat (now tk) = false -> new = []) /\
    (heartbeat_due interval_ms last_heartbeat (now tk) = true ->
     hd SendOk (send_script st) = SendOk ->
     heartbeats new = [VDict [("op", VInt 1); ("d", sequence st)]]).
Proof.
  unfold heartbeat_body. intros H.
  destruct (heartbeat_due interval_ms last_heartbeat (now tk)) eqn:Hdue.
  2:{ injection H as <- <-. split; [reflexivity|]. exists [].
      rewrite app_nil_r. repeat split; auto. discriminate. }
  set (hb := VDict [("op", VInt 1); ("d", sequence st)]).
  set (st1 := set_ping_start (monotonic tk) st) in H.
  change (sequence st1) with (sequence st) in H. fold hb in H.
  destruct (_write_socket hb st1) as [r1 st2] eqn:Hw1.
  pose proof (write_socket_effect _ _ _ _ Hw1) as (Hs1 & _ & _ & Hsent1 & _).
  assert (Hok : hd SendOk (send_script st) = SendOk ->
                sent st2 = sent st ++ [hb]).
  { intros Hhd. unfold _write_socket in Hw1.
    change (send_script st1) with (send_script st) in Hw1.
    rewrite Hhd in Hw1. by injection Hw1 as <- <-. }
  change (sent st1) with (sent st) in Hsent1.
  change (sequence st1) with (sequence st) in Hs1.
  destruct r1 as [[]|e].
  - destruct (set_status _ _) as [r3 st3] eqn:Hw2. unfold set_status in Hw2.
    pose proof (write_socket_effect _ _ _ _ Hw2) as (Hs2 & _ & _ & Hsent2 & _).
    simpl in Hs2, Hsent2.
    assert (Hst' : st' = st3) by (destruct r3 as [[]|]; congruence).
    subst st'. split; [congruence|].
    destruct Hsent1 as [E1|E1], Hsent2 as [E2|E2]; rewrite E2, E1.
    + exists []. rewrite app_nil_r. repeat split; auto; try discriminate.
      intros _ Hhd. apply Hok in Hhd. rewrite E1 in Hhd.
      apply (f_equal length) in Hhd. rewrite length_app in Hhd.
      simpl in Hhd. lia.
    + eexists [_]. repeat split; auto; try discriminate.
      intros _ Hhd. apply Hok in Hhd. rewrite E1 in Hhd.
      apply (f_equal length) in Hhd. rewrite length_app in Hhd.
      simpl in Hhd. lia.
    + exists [hb]. repeat split; auto; try discriminate.
      cbv. by repeat constructor.
    + rewrite <- app_assoc. eexists (hb :: [_]).
      repeat split; auto; try discriminate.
      cbv. by repeat constructor.
  - injection H as <- <-. split; [congruence|].
    destruct Hsent1 as [E1|E1]; rewrite E1.
    + exists []. rewrite app_nil_r. repeat split; auto; try discriminate.
      intros _ Hhd. apply Hok in Hhd. rewrite E1 in Hhd.
      apply (f_equal length) in Hhd. rewrite length_app in Hhd.
      simpl in Hhd. lia.
    + exists [hb]. repeat split; auto; try discriminate.
      cbv. by repeat constructor.
Qed.



(** ** The latency sample *)

(** When less than a second has elapsed, the sample is the elapsed time in
    milliseconds, rounded. *)
Lemma latency_below_one_second (ping_start monotonic : Q) :
  let us := py_round ((monotonic - ping_start) * 1000000) in
  0 <= us < 1000000 ->
  latency ping_start monotonic = py_round (inject_Z us / 1000).
Proof.
  intros us Hus. unfold latency, timedelta_of_seconds. cbn [microseconds].
  fold us. by rewrite Z.mod_small.
Qed.

(** C4: a HeartbeatAck handled 1.25 s after the heartbeat was sent stores a
    latency of 250 ms, where the elapsed time is 1250 ms: the whole seconds
    of the elapsed time are left out of the sample. *)
Theorem heartbeat_ack_latency_drops_seconds :
  forall st,
    let ack := VDict [("t", VNone); ("s", VNone); ("op", VInt 11); ("d", VNone)] in
    let st' := (handle_gateway_message (5 # 4) ack (set_ping_start 0 st)).2 in
    ping st' = 250 /\
    total_microseconds (timedelta_of_seconds ((5 # 4) - 0)) = 1250 * 1000 /\
    latency 0 (1 # 4) = 250 /\
    latency 0 (41 # 1) = 0.
Proof. intros st. repeat split; reflexivity. Qed.

(** ** The heartbeat loop *)

(** C6, as stated, fails: with the interval 41.25 and the loop's turns one
    time unit apart from Ready on, the turns at 0, 1, ..., 40 send nothing;
    the first Heartbeat goes out at the turn at 41, after 40.25.  And a turn
    sends also when the elapsed time is more than one time unit past the
    interval, as at 100. *)
Lemma first_heartbeat_is_after_40_25 :
  let st := quiet 41250 event.init in
  heartbeats (sent (_heartbeat 0 (unit_ticks 0 41) st).2) = [] /\
  heartbeats (sent (_heartbeat 0 (unit_ticks 0 42) st).2) =
    [VDict [("op", VInt 1); ("d", VInt 0)]] /\
  ~ (41 <= 161 # 4)%Q /\
  heartbeats (sent (heartbeat_body 41250 (Tick 100 100 100) 0 st).2) =
    [VDict [("op", VInt 1); ("d", VInt 0)]].
Proof.
  split; [vm_compute; reflexivity|]. split; [vm_compute; reflexivity|].
  split; [|vm_compute; reflexivity].
  intros H. apply Qle_bool_iff in H. vm_compute in H. discriminate.
Qed.

Lemma heartbeat_due_spec interval_ms last_heartbeat now :
  heartbeat_due interval_ms last_heartbeat now = true <->
  (inject_Z interval_ms / 1000 - 1 <= now - last_heartbeat)%Q.
Proof. unfold heartbeat_due. apply Qle_bool_iff. Qed.

(** C6, amended: a turn of the loop sends a Heartbeat exactly when the time
    elapsed since the last send is at least the interval less one time
    unit; a turn before that changes nothing.  With the interval 41.25 and
    turns one time unit apart from Ready on, no turn up to the one at 40
    sends, and the first Heartbeat goes out at the turn at 41, which is past
    40.25 and before 41.25. *)
Theorem heartbeat_sent_from_interval_less_one :
  (forall interval_ms tk last_heartbeat st,
      (heartbeat_due interval_ms last_heartbeat (now tk) = true <->
       (inject_Z interval_ms / 1000 - 1 <= now tk - last_heartbeat)%Q) /\
      (heartbeat_due interval_ms last_heartbeat (now tk) = false ->
       heartbeat_body interval_ms tk last_heartbeat st
         = (Ok last_heartbeat, st)) /\
      (heartbeat_due interval_ms last_heartbeat (now tk) = true ->
       hd SendOk (send_script st) = SendOk ->
       exists r st' rest,
         heartbeat_body interval_ms tk last_heartbeat st = (r, st') /\
         sent st' =
           sent st ++ VDict [("op", VInt 1); ("d", sequence st)] :: rest /\
         ping_start st' = monotonic tk)) /\
  (forall n, (n <= 41)%nat ->
      heartbeats
        (sent (_heartbeat 0 (unit_ticks 0 n) (quiet 41250 event.init)).2)
        = []) /\
  heartbeats
    (sent (_heartbeat 0 (unit_ticks 0 42) (quiet 41250 event.init)).2)
    = [VDict [("op", VInt 1); ("d", VInt 0)]] /\
  (161 # 4 < 41 /\ 41 < 165 # 4)%Q.
Proof.
  split; [|split; [|split]].
  - intros interval_ms tk last_heartbeat st.
    split; [apply heartbeat_due_spec|]. split.
    + intros Hdue. unfold heartbeat_body. by rewrite Hdue.
    + intros Hdue Hhd. unfold heartbeat_body. rewrite Hdue.
      set (hb := VDict [("op", VInt 1); ("d", sequence st)]).
      set (st1 := set_ping_start (monotonic tk) st).
      change (sequence st1) with (sequence st). fold hb.
      assert (Hw1 : _write_socket hb st1 =
                    (Ok tt, set_sent (sent st ++ [hb])
                              (set_send_script (tl (send_script st)) st1))).
      { unfold _write_socket. change (send_script st1) with (send_script st).
        by rewrite Hhd. }
      rewrite Hw1.
      destruct (set_status _ _) as [r3 st3] eqn:Hw2. unfold set_status in Hw2.
      pose proof (write_socket_effect _ _ _ _ Hw2) as (_ & _ & Hps & Hsent & _).
      cbn in Hps, Hsent.
      assert (Hex : exists r, (match r3 with
                               | Ok _ => (Ok (after_send tk), st3)
                               | Raise e => (Raise e, st3)
                               end) = (r, st3)).
      { destruct r3 as [[]|e]; by eexists. }
      destruct Hex as [r Hr].
      destruct Hsent as [E|E].
      * exists r, st3, []. split; [destruct r3 as [[]|]; exact Hr|].
        split; [exact E | exact Hps].
      * eexists r, st3, [_]. split; [destruct r3 as [[]|]; exact Hr|].
        split; [|exact Hps]. rewrite E. by rewrite <- app_assoc.
  - intros n Hn.
    do 42 (destruct n as [|n]; [vm_compute; reflexivity|]). lia.
  - vm_compute. reflexivity.
  - split; reflexivity.
Qed.

Lemma heartbeat_sent_from_interval_less_one_witness :
  let st := quiet 41250 event.init in
  heartbeat_body 41250 (Tick 40 40 40) 0 st = (Ok 0%Q, st) /\
  (exists r st' rest,
      heartbeat_body 41250 (Tick 41 41 41) 0 st = (r, st') /\
      sent st' = VDict [("op", VInt 1); ("d", VInt 0)] :: rest /\
      ping_start st' = 41%Q) /\
  heartbeats (sent (_heartbeat 0 (unit_ticks 0 7) st).2) = [].
Proof.
  intros st.
  destruct heartbeat_sent_from_interval_less_one as (Hturn & Hnone & _).
  destruct (Hturn 41250 (Tick 40 40 40) 0%Q st) as (_ & Hearly & _).
  destruct (Hturn 41250 (Tick 41 41 41) 0%Q st) as (_ & _ & Hdue).
  split; [apply Hearly; vm_compute; reflexivity|].
  split; [apply Hdue; vm_compute; reflexivity|].
  apply Hnone. lia.
Defined.

(** ** The socket reader *)


Lemma string_app_assoc (a b c : string) :
  String.app (String.app a b) c = String.app a (String.app b c).
Proof.
  induction a as [|x a IH]; [reflexivity|].
  change (String x (String.app (String.app a b) c) =
          String x (String.app a (String.app b c))).
  by f_equal.
Qed.

Lemma string_app_not_empty (a b : string) :
  a <> EmptyString -> String.app a b <> EmptyString.
Proof. destruct a; [done | discriminate]. Qed.

(** What a read leaves of the object. *)
Lemma read_loop_effect loads script data st r st' :
  read_loop loads script data st = (r, st') ->
  sequence st' = sequence st /\ ping st' = ping st /\
  sent st' = sent st /\ workers st' = workers st /\ bus st' = bus st /\
  (connected st' = connected st /\ log st' = log st \/
   connected st = true /\ connected st' = false /\
   exists msg, log st' = log st ++ [(WARNING, msg)]).
Proof.
  revert data st. induction script as [|o script IH]; intros data st H.
  - injection H as <- <-. cbn. auto 10.
  - destruct o as [s|errno|errno|]; cbn [read_loop] in H.
    + destruct (bool_decide _); [injection H as <- <-; cbn; auto 10|].
      destruct (loads _); [injection H as <- <-; cbn; auto 10|].
      by apply IH in H.
    + destruct (bool_decide _); injection H as <- <-; cbn; auto 10.
    + destruct (bool_decide (errno = 104)).
      * destruct (connected st) eqn:Hc; cbn in H; injection H as <- <-; cbn.
        -- repeat split; auto. right. repeat split; auto. by eexists.
        -- auto 10.
      * destruct (bool_decide _); injection H as <- <-; cbn; auto 10.
    + destruct (connected st) eqn:Hc; cbn [negb] in H.
      * apply IH in H as (-> & -> & -> & -> & -> & Hlog). cbn.
        repeat split; auto. right. split; [reflexivity|].
        destruct Hlog as [[-> ->]|[Hc' _]]; [|discriminate Hc'].
        cbn. split; [reflexivity | by eexists].
      * injection H as <- <-. cbn. auto 10.
Qed.




(** ** Session invalidation *)





(** [disconnect] comes back, whatever the schedule. *)
Lemma disconnect_returns loads ticks turns sys :
  exists sys',
    disconnect loads ticks turns sys = Some sys' /\
    connected (self sys') = false /\
    sent (self sys') = sent (self sys) /\
    (forall l, heartbeat_thread sys' <> Alive l) /\
    (forall l, message_consumer_thread sys' <> Alive l).
Proof.
  unfold disconnect, join_heartbeat, join_message_consumer.
  cbn [heartbeat_thread message_consumer_thread self].
  destruct (heartbeat_thread sys) as [|[last interval_ms]|o1];
    destruct (message_consumer_thread sys) as [|[]|o2];
    try (destruct ticks); try (destruct turns);
    cbn; eexists; repeat split; auto; discriminate.
Qed.




(** * Further properties *)

Set Warnings "-clear-no-such-hyp".

(** ** The enumeration *)



(** ** The payload decoder, again *)

(** X2: decoding what was decoded changes nothing: no dictionary is left
    where [to_object] looks, in the value or in the lists inside it. *)
Theorem to_object_idempotent :
  forall item, event.to_object (event.to_object item) = event.to_object item.
Proof.
  unfold event.to_object.
  fix IH 1. intros [ | b | z | s | l | d | ns | e | l ]; try reflexivity.
  - cbn [event.convert]. f_equal.
    induction l as [|a l IHl]; [reflexivity|].
    cbn [map]. by rewrite IH, IHl.
Qed.

(** ** The registry, again *)

(** X3: [unsubscribe] raises exactly when the key has a list that does not
    hold the callback, and what it raises is [ValueError]. *)
Theorem unsubscribe_raises_iff :
  forall c k cb e,
    event.unsubscribe k cb c = Raise e <->
    e = ValueError /\ is_Some (event.subscriptions c !! k) /\
    cb ∉ event.registered k c.
Proof.
  intros c k cb e. unfold event.registered.
  destruct (event.subscriptions c !! k) as [l|] eqn:Hk.
  - rewrite (unsubscribe_bound _ _ _ _ Hk).
    destruct (decide (cb ∈ event.heap c !!! l)) as [Hin|Hn].
    + destruct (list_remove_present _ _ Hin) as (l1 & l2 & _ & _ & ->).
      cbn. split; [discriminate | by intros (_ & _ & ?)].
    + rewrite (list_remove_absent _ _ Hn). cbn. split.
      * intros [= <-]. by eauto.
      * by intros (-> & _).
  - rewrite (unsubscribe_no_list _ _ _ Hk). split; [discriminate|].
    by intros (_ & [? ?] & _).
Qed.

(** What [unsubscribe] leaves when [l.remove] succeeds. *)
Lemma unsubscribe_result c k cb l xs :
  event.wf c ->
  event.subscriptions c !! k = Some l ->
  list_remove cb (event.heap c !!! l) = Ok xs ->
  let c' := event.Cls (<[l := xs]> (event.heap c)) (event.subscriptions c) in
  event.unsubscribe k cb c = Ok c' /\
  event.registered k c' = xs /\
  event.wf c' /\
  forall k', k' <> k -> event.registered k' c' = event.registered k' c.
Proof.
  intros Hwf Hk Hrem c'.
  assert (Hun : event.unsubscribe k cb c = Ok c').
  { rewrite (unsubscribe_bound _ _ _ _ Hk), Hrem. reflexivity. }
  destruct (unsubscribe_ok _ _ _ _ Hwf Hun) as (Hwf' & _ & _).
  destruct (Hwf k l Hk) as [Hlt Hinj].
  split; [exact Hun|]. unfold event.registered, c'. cbn. rewrite Hk.
  split; [by apply list_lookup_total_insert_eq|]. split; [exact Hwf'|].
  intros k' Hne. destruct (event.subscriptions c !! k') as [l'|] eqn:Hk';
    [|reflexivity].
  apply list_lookup_total_insert_ne. intros ->. by apply Hne, Hinj.
Qed.

(** X4: when the callback is in the list of the key, [unsubscribe] takes
    out its first occurrence and nothing else: the items before and after
    keep their order, the lists of the other keys and the keys themselves
    are as they were. *)
Theorem unsubscribe_removes_first :
  forall c k cb,
    event.wf c ->
    cb ∈ event.registered k c ->
    exists c' l1 l2,
      event.unsubscribe k cb c = Ok c' /\
      event.registered k c = l1 ++ cb :: l2 /\ (cb ∉ l1) /\
      event.registered k c' = l1 ++ l2 /\
      event.subscriptions c' = event.subscriptions c /\
      event.wf c' /\
      forall k', k' <> k -> event.registered k' c' = event.registered k' c.
Proof.
  intros c k cb Hwf Hin.
  destruct (list_remove_present _ _ Hin) as (l1 & l2 & Hsplit & Hn1 & Hrem).
  unfold event.registered in Hin, Hrem.
  destruct (event.subscriptions c !! k) as [l|] eqn:Hk;
    [|by apply elem_of_nil in Hin].
  destruct (unsubscribe_result c k cb l (l1 ++ l2) Hwf Hk Hrem)
    as (Hun & Hreg & Hwf' & Hother).
  eexists _, l1, l2. split; [exact Hun|]. split; [exact Hsplit|].
  split; [exact Hn1|]. split; [exact Hreg|]. split; [reflexivity|].
  split; [exact Hwf' | exact Hother].
Qed.

Lemma unsubscribe_removes_first_witness :
  let c := foldl (fun c cb => event.subscribe READY cb c) event.init
                 [Callback 1; Callback 2; Callback 1] in
  exists c', event.unsubscribe READY (Callback 1) c = Ok c' /\
             event.registered READY c' = [Callback 2; Callback 1].
Proof.
  intros c.
  destruct (unsubscribe_removes_first c READY (Callback 1))
    as (c' & l1 & l2 & Hun & Hsplit & Hn & Hreg & _).
  - apply wf_subscribe_all, wf_init.
  - vm_compute. left.
  - exists c'. split; [exact Hun|].
    vm_compute in Hun. injection Hun as <-. reflexivity.
Defined.

(** X5: [unsubscribe] after [subscribe] of a callback that was not in the
    list of the key gives every key the list it had; the key itself stays
    in the registry, with an empty list if the callback was its first.  If
    the callback was in the list already, the pair moves its first
    occurrence to the end. *)
Theorem subscribe_then_unsubscribe :
  (forall c k cb,
      event.wf c ->
      cb ∉ event.registered k c ->
      exists c',
        event.unsubscribe k cb (event.subscribe k cb c) = Ok c' /\
        (forall k', event.registered k' c' = event.registered k' c) /\
        is_Some (event.subscriptions c' !! k)) /\
  (forall c k cb l1 l2,
      event.wf c ->
      event.registered k c = l1 ++ cb :: l2 ->
      cb ∉ l1 ->
      exists c',
        event.unsubscribe k cb (event.subscribe k cb c) = Ok c' /\
        event.registered k c' = l1 ++ l2 ++ [cb]).
Proof.
  assert (Hbound : forall c k cb,
             is_Some (event.subscriptions (event.subscribe k cb c) !! k)).
  { intros c k cb. destruct (event.subscriptions c !! k) as [l|] eqn:Hk.
    - rewrite (subscribe_bound _ _ _ _ Hk). by eexists.
    - rewrite (subscribe_first_use _ _ _ Hk). cbn.
      rewrite lookup_insert_eq. by eexists. }
  assert (Hstep : forall c k cb l1 l2,
             event.wf c ->
             event.registered k c ++ [cb] = l1 ++ cb :: l2 ->
             cb ∉ l1 ->
             exists c',
               event.unsubscribe k cb (event.subscribe k cb c) = Ok c' /\
               event.registered k c' = l1 ++ l2 /\
               event.subscriptions c' =
                 event.subscriptions (event.subscribe k cb c) /\
               forall k', k' <> k ->
                 event.registered k' c' = event.registered k' c).
  { intros c k cb l1 l2 Hwf Hsplit Hn1.
    pose proof (wf_subscribe c k cb Hwf) as Hwf1.
    assert (Hin : cb ∈ event.registered k (event.subscribe k cb c)).
    { rewrite registered_subscribe by done. set_solver. }
    destruct (list_remove_present _ _ Hin) as (m1 & m2 & Hsplit' & Hm1 & Hrem).
    unfold event.registered in Hrem.
    destruct (event.subscriptions (event.subscribe k cb c) !! k) as [l|] eqn:Hk.
    2:{ destruct (event.subscriptions c !! k) as [l0|] eqn:Hk0.
        - rewrite (subscribe_bound _ _ _ _ Hk0) in Hk. cbn in Hk. congruence.
        - rewrite (subscribe_first_use _ _ _ Hk0) in Hk. cbn in Hk.
          by rewrite lookup_insert_eq in Hk. }
    destruct (unsubscribe_result _ k cb l (m1 ++ m2) Hwf1 Hk Hrem)
      as (Hun & Hreg & _ & Hother).
    set (c' := event.Cls _ _) in *.
    assert (Hsub : event.subscriptions c' =
                   event.subscriptions (event.subscribe k cb c))
      by reflexivity.
    rewrite registered_subscribe, Hsplit in Hsplit' by done.
    assert (l1 = m1 /\ l2 = m2) as [<- <-].
    { clear -Hsplit' Hn1 Hm1. revert m1 Hsplit' Hm1.
      induction l1 as [|x l1 IH]; intros [|y m1] Heq Hm1; simpl in Heq.
      - by injection Heq.
      - injection Heq as -> _. exfalso. apply Hm1. left.
      - injection Heq as -> _. exfalso. apply Hn1. left.
      - injection Heq as -> Heq.
        apply not_elem_of_cons in Hn1 as [_ Hn1].
        apply not_elem_of_cons in Hm1 as [_ Hm1].
        by destruct (IH Hn1 m1 Heq Hm1) as [-> ->]. }
    exists c'. split; [exact Hun|]. split; [exact Hreg|].
    split; [exact Hsub|].
    intros k' Hne. rewrite Hother by done.
    by apply registered_subscribe_other. }
  split.
  - intros c k cb Hwf Hn.
    destruct (Hstep c k cb (event.registered k c) [] Hwf eq_refl Hn)
      as (c' & Hun & Hreg & Hsub & Hother).
    exists c'. split; [exact Hun|]. split.
    + intros k'. destruct (decide (k' = k)) as [->|Hne]; [|by apply Hother].
      by rewrite Hreg, app_nil_r.
    + rewrite Hsub. apply Hbound.
  - intros c k cb l1 l2 Hwf Hsplit Hn1.
    destruct (Hstep c k cb l1 (l2 ++ [cb]) Hwf) as (c' & Hun & Hreg & _);
      [by rewrite Hsplit, <- app_assoc | exact Hn1|].
    exists c'. split; [exact Hun | exact Hreg].
Qed.

Lemma subscribe_then_unsubscribe_witness :
  let c := event.subscribe READY (Callback 1) event.init in
  (exists c',
      event.unsubscribe MESSAGE_CREATE (Callback 2)
        (event.subscribe MESSAGE_CREATE (Callback 2) c) = Ok c' /\
      event.registered MESSAGE_CREATE c' = [] /\
      event.registered READY c' = [Callback 1] /\
      is_Some (event.subscriptions c' !! MESSAGE_CREATE)) /\
  (let c2 := event.subscribe READY (Callback 2) c in
   exists c',
     event.unsubscribe READY (Callback 1)
       (event.subscribe READY (Callback 1) c2) = Ok c' /\
     event.registered READY c' = [Callback 2; Callback 1]).
Proof.
  intros c. destruct subscribe_then_unsubscribe as [Hfresh Hmove].
  assert (Hwf : event.wf c) by apply wf_subscribe, wf_init.
  split.
  - destruct (Hfresh c MESSAGE_CREATE (Callback 2) Hwf)
      as (c' & Hun & Hreg & Hkey); [vm_compute; apply not_elem_of_nil|].
    exists c'. split; [exact Hun|]. rewrite !Hreg. by repeat split.
  - intros c2.
    destruct (Hmove c2 READY (Callback 1) [] [Callback 2])
      as (c' & Hun & Hreg);
      [by apply wf_subscribe | reflexivity | apply not_elem_of_nil|].
    exists c'. split; [exact Hun | exact Hreg].
Defined.

(** X6: nothing takes a key out of the registry or gives it another list
    object: through any calls a key keeps the list object it has, the store
    only grows, and a registry that started empty stays well formed. *)
Theorem registry_keys_persist :
  forall calls c,
    (forall k l,
        event.subscriptions c !! k = Some l ->
        event.subscriptions (bus_calls calls c) !! k = Some l) /\
    (event.wf c -> event.wf (bus_calls calls c)) /\
    (length (event.heap c) <= length (event.heap (bus_calls calls c)))%nat /\
    event.wf (bus_calls calls event.init).
Proof.
  intros calls c. split; [intros k l; apply bus_calls_keep_binding|].
  split; [|split; [|apply wf_bus_calls]].
  - revert c. induction calls as [|call calls IH]; intros c Hwf; [done|].
    cbn. by apply IH, wf_bus_step.
  - revert c. induction calls as [|call calls IH]; intros c; [done|].
    cbn [bus_calls foldl]. etransitivity; [|apply IH].
    destruct call as [k cb|k cb|m]; cbn [bus_step].
    + unfold event.subscribe. destruct (event.subscriptions c !! k); cbn.
      * by rewrite length_insert.
      * rewrite length_app. lia.
    + unfold event.unsubscribe. destruct (event.subscriptions c !! k); [|done].
      destruct (list_remove _ _); cbn; [|done]. by rewrite length_insert.
    + destruct (event.from_message m c) as [[ev c1]|] eqn:Hm; [|done].
      apply from_message_inv in Hm
        as (? & ? & ? & e' & ? & _ & _ & _ & _ & _ & _ & ->).
      unfold event.subscriptions_get.
      destruct (event.subscriptions c !! e'); cbn; [done|].
      rewrite length_app. lia.
Qed.

Lemma registry_keys_persist_witness :
  let c := event.subscribe READY (Callback 1) event.init in
  let calls := [CallUnsubscribe READY (Callback 1);
                CallFromMessage (dispatch_message 1 "RESUMED" []);
                CallSubscribe READY (Callback 2)] in
  event.subscriptions (bus_calls calls c) !! READY = Some 0%nat /\
  event.wf (bus_calls calls c).
Proof.
  intros c calls.
  destruct (registry_keys_persist calls c) as (Hkeep & Hwf & _).
  split; [by apply Hkeep | apply Hwf, wf_subscribe, wf_init].
Defined.

(** ** Decoding a message, again *)







(** ** The message handler, again *)



(** X10: the handler works on the object's own fields only: it sends
    nothing and reads nothing from the socket, leaves the interval, the
    heartbeat timestamp and the status alone, never sets [connected], and
    only adds to the pool and to the log.  A frame whose opcode is not 0, 9
    or 11 changes nothing at all. *)
Theorem handler_frame :
  forall monotonic message st,
    let st' := (handle_gateway_message monotonic message st).2 in
    sent st' = sent st /\
    recv_script st' = recv_script st /\
    send_script st' = send_script st /\
    ping_start st' = ping_start st /\
    heartbeat_interval st' = heartbeat_interval st /\
    status st' = status st /\
    (connected st = false -> connected st' = false) /\
    (exists new, workers st' = workers st ++ new) /\
    (exists new, log st' = log st ++ new) /\
    (forall op, subscript message "op" = Ok (VInt op) ->
                op <> 0 -> op <> 9 -> op <> 11 ->
                handle_gateway_message monotonic message st = (Ok tt, st)).
Proof.
  intros monotonic message st st'. subst st'.
  assert (Hnone : forall st0 : state,
             (exists new : list task, workers st0 = workers st0 ++ new) /\
             (exists new : list (level * string), log st0 = log st0 ++ new)).
  { intros st0. split; exists []; by rewrite app_nil_r. }
  unfold handle_gateway_message.
  destruct (subscript message "op") as [op|e1] eqn:Hop; cbn [snd].
  2:{ destruct (Hnone st). repeat split; auto. discriminate. }
  assert (Hother : forall z, Ok op = Ok (VInt z) -> z <> 0 -> z <> 9 ->
                             z <> 11 ->
                             py_eq_int op 0 = false /\
                             py_eq_int op 9 = false /\
                             py_eq_int op 11 = false).
  { intros z [= ->] Hn0 Hn9 Hn11. cbn.
    by rewrite !bool_decide_eq_false_2 by done. }
  destruct (py_eq_int op 0) eqn:E0.
  - destruct (event.from_message message (bus st)) as [[ev c]|e1] eqn:Hm;
      cbn [snd].
    2:{ destruct (Hnone st). repeat split; auto.
        intros z Hz Hn0 Hn9 Hn11. by destruct (Hother z Hz Hn0 Hn9 Hn11). }
    apply from_message_inv in Hm
      as (d & ns & t & e0 & s & _ & _ & _ & _ & _ & -> & _).
    cbn zeta. rewrite event_of_sequence, subscribers_event_of, queue_all.
    cbn. repeat split; auto; try by eexists.
    + exists []. by rewrite app_nil_r.
    + intros z Hz Hn0 Hn9 Hn11. by destruct (Hother z Hz Hn0 Hn9 Hn11).
  - destruct (py_eq_int op 9) eqn:E9; cbn.
    + repeat split; auto; try by eexists.
      * exists []. by rewrite app_nil_r.
      * intros z Hz Hn0 Hn9 Hn11. by destruct (Hother z Hz Hn0 Hn9 Hn11) as (_ & ? & _).
    + destruct (py_eq_int op 11) eqn:E11; cbn;
        destruct (Hnone st); repeat split; auto.
      intros z Hz Hn0 Hn9 Hn11. by destruct (Hother z Hz Hn0 Hn9 Hn11) as (_ & _ & ?).
Qed.

Lemma handler_frame_witness :
  let st := quiet 41250 event.init in
  handle_gateway_message 0 (VDict [("op", VInt 7); ("d", VNone)]) st
    = (Ok tt, st).
Proof.
  intros st.
  destruct (handler_frame 0 (VDict [("op", VInt 7); ("d", VNone)]) st)
    as (_ & _ & _ & _ & _ & _ & _ & _ & _ & Hignored).
  by apply (Hignored 7).
Defined.

(** ** The latency sample, again *)

(** [round(a / 1000)] for an integer [a], in integers. *)
Lemma py_round_milli a :
  py_round (inject_Z a / 1000) =
  if a mod 1000 <? 500 then a / 1000
  else if 500 <? a mod 1000 then a / 1000 + 1
  else if Z.even (a / 1000) then a / 1000 else a / 1000 + 1.
Proof.
  unfold py_round.
  assert (Hf : Qfloor (inject_Z a / 1000) = a / 1000).
  { unfold Qfloor, Qdiv, Qmult, Qinv, inject_Z. cbn. by rewrite Z.mul_1_r. }
  rewrite Hf.
  assert (Hc : Qcompare (inject_Z a / 1000 - inject_Z (a / 1000)) (1 # 2)
               = (2 * (a mod 1000) ?= 1000)).
  { unfold Qcompare, Qminus, Qplus, Qopp, Qdiv, Qmult, Qinv, inject_Z. cbn.
    change (Z.pos (1 * 1000)) with 1000.
    change (1 * Z.pos (1 * 1000 * 1)) with 1000.
    f_equal. pose proof (Z.mod_eq a 1000). lia. }
  rewrite Hc.
  destruct (Z.compare_spec (2 * (a mod 1000)) 1000) as [E|E|E].
  - rewrite (proj2 (Z.ltb_ge _ _)) by lia.
    by rewrite (proj2 (Z.ltb_ge _ _)) by lia.
  - by rewrite (proj2 (Z.ltb_lt _ _)) by lia.
  - rewrite (proj2 (Z.ltb_ge _ _)) by lia.
    by rewrite (proj2 (Z.ltb_lt _ _)) by lia.
Qed.

(** X11: whatever the two clock readings, also when a second or more lies
    between them or the later one is the smaller, the latency sample is an
    integer from 0 to 1000. *)
Theorem latency_range :
  forall ping_start monotonic, 0 <= latency ping_start monotonic <= 1000.
Proof.
  intros ping_start monotonic. unfold latency, timedelta_of_seconds.
  cbn [microseconds]. rewrite py_round_milli.
  set (m := py_round ((monotonic - ping_start) * 1000000) mod 1000000).
  assert (Hm : 0 <= m < 1000000) by (apply Z.mod_pos_bound; lia).
  assert (Hq : 0 <= m / 1000 <= 999).
  { split; [apply Z.div_pos; lia|].
    apply Z.lt_succ_r. apply Z.div_lt_upper_bound; lia. }
  destruct (m mod 1000 <? 500); [lia|].
  destruct (500 <? m mod 1000); [lia|].
  destruct (Z.even (m / 1000)); lia.
Qed.

(** X12: the latency sample is the elapsed time in milliseconds, rounded,
    less 1000 for each whole second of it: right below one second, short by
    the whole seconds from there on. *)
Theorem latency_is_elapsed_less_whole_seconds :
  forall ping_start monotonic,
    let us := py_round ((monotonic - ping_start) * 1000000) in
    latency ping_start monotonic =
    py_round (inject_Z us / 1000) - 1000 * (us / 1000000).
Proof.
  intros ping_start monotonic us. unfold latency, timedelta_of_seconds.
  cbn [microseconds]. fold us. rewrite !py_round_milli.
  set (k := us / 1000000). set (m := us mod 1000000).
  assert (Hus : us = m + (k * 1000) * 1000).
  { pose proof (Z.div_mod us 1000000). unfold k, m. lia. }
  assert (Hdiv : us / 1000 = m / 1000 + k * 1000).
  { rewrite Hus. apply Z.div_add. lia. }
  assert (Hmod : us mod 1000 = m mod 1000).
  { rewrite Hus. apply Z.mod_add. lia. }
  assert (Heven : Z.even (us / 1000) = Z.even (m / 1000)).
  { rewrite Hdiv, Z.even_add, Z.even_mul. cbn.
    rewrite orb_true_r. by destruct (Z.even (m / 1000)). }
  rewrite Hmod, Heven, Hdiv.
  destruct (m mod 1000 <? 500); [lia|].
  destruct (500 <? m mod 1000); [lia|].
  destruct (Z.even (m / 1000)); lia.
Qed.

(** ** Writing to the socket, again *)

(** X13: [_write_socket] raises only an [OSError] of the socket whose errno
    is not 104, and then nothing is logged; the data goes out exactly when
    the send goes through; a reset or closed peer is logged once and clears
    [connected] when the object was connected, and passes in silence when it
    was not; in no case does [connected] go from false to true. *)
Theorem write_socket_outcomes :
  forall data st r st',
    _write_socket data st = (r, st') ->
    let outcome := hd SendOk (send_script st) in
    (forall e, r = Raise e <->
               exists errno, outcome = SendOSError errno /\ errno <> 104 /\
                             e = OSError errno) /\
    (outcome = SendOk -> sent st' = sent st ++ [data]) /\
    (outcome <> SendOk -> sent st' = sent st) /\
    (connected st = false ->
     connected st' = false /\ log st' = log st) /\
    (connected st = true ->
     outcome = SendClosed \/ outcome = SendOSError 104 ->
     connected st' = false /\
     exists msg, log st' = log st ++ [(WARNING, msg)]) /\
    (connected st = true -> outcome = SendOk -> connected st' = true) /\
    (forall e, r = Raise e ->
               connected st' = connected st /\ log st' = log st) /\
    send_script st' = tl (send_script st).
Proof.
  intros data st r st' H outcome. subst outcome. unfold _write_socket in H.
  destruct st as [conn p sq ps hi stt rs ss se w lg b]. cbn in *.
  destruct (hd SendOk ss) as [|errno|] eqn:Hhd.
  - injection H as <- <-. cbn. naive_solver.
  - destruct (bool_decide (errno = 104)) eqn:E104.
    + apply bool_decide_eq_true_1 in E104. subst errno.
      destruct conn; cbn in H; injection H as <- <-; cbn; naive_solver.
    + apply bool_decide_eq_false_1 in E104.
      injection H as <- <-. cbn. naive_solver.
  - destruct conn; cbn in H; injection H as <- <-; cbn; naive_solver.
Qed.

Lemma write_socket_outcomes_witness :
  let st := set_send_script [SendClosed; SendOSError 32]
              (set_connected false (quiet 41250 event.init)) in
  let frame := VDict [("op", VInt 1); ("d", VInt 0)] in
  let out := _write_socket frame st in
  sent out.2 = [] /\ connected out.2 = false /\ log out.2 = [].
Proof.
  intros st frame out.
  destruct (write_socket_outcomes frame st out.1 out.2
              (surjective_pairing out))
    as (_ & _ & Hsent & Hsilent & _).
  rewrite Hsent by discriminate.
  destruct (Hsilent eq_refl) as [-> ->]. by repeat split.
Defined.

(** ** Reading from the socket, again *)

Lemma joined_cons data s chunks :
  joined data (s :: chunks) = joined (String.app data s) chunks.
Proof. reflexivity. Qed.

Lemma read_loop_reassembles loads chunks data rest st v :
  chunks <> [] ->
  (forall n, (0 < n < length chunks)%nat ->
             joined data (take n chunks) <> EmptyString /\
             loads (rstrip (joined data (take n chunks))) = None) ->
  joined data chunks <> EmptyString ->
  loads (rstrip (joined data chunks)) = Some v ->
  read_loop loads ((RecvText <$> chunks) ++ rest) data st =
    (Ok v, set_recv_script rest st).
Proof.
  revert data. induction chunks as [|s chunks IH]; intros data Hne Hpre Hnz Hv;
    [done|].
  rewrite fmap_cons. cbn [app read_loop].
  destruct chunks as [|s' chunks].
  - cbn in Hnz, Hv. rewrite (bool_decide_eq_false_2 _ Hnz), Hv. reflexivity.
  - destruct (Hpre 1%nat) as [Hnz1 Hbad1]; [cbn; lia|].
    cbn in Hnz1, Hbad1. rewrite (bool_decide_eq_false_2 _ Hnz1), Hbad1.
    apply IH; [done | | exact Hnz | exact Hv].
    intros n Hn. apply (Hpre (S n)). cbn in *. lia.
Qed.

(** X14: a frame that arrives in pieces is put together: if the text
    gathered after each read but the last is not empty and does not parse,
    and the whole text parses, [_read_socket] returns the parsed whole and
    leaves what follows it unread. *)
Theorem split_frame_is_reassembled :
  forall loads chunks rest st v,
    recv_script st = (RecvText <$> chunks) ++ rest ->
    chunks <> [] ->
    (forall n, (0 < n < length chunks)%nat ->
               joined EmptyString (take n chunks) <> EmptyString /\
               loads (rstrip (joined EmptyString (take n chunks))) = None) ->
    joined EmptyString chunks <> EmptyString ->
    loads (rstrip (joined EmptyString chunks)) = Some v ->
    _read_socket loads st = (Ok v, set_recv_script rest st).
Proof.
  intros loads chunks rest st v Hscript Hne Hpre Hnz Hv.
  unfold _read_socket. rewrite Hscript. by apply read_loop_reassembles.
Qed.

Lemma split_frame_is_reassembled_witness :
  let pieces := ["{"; String.app (quoted "op") ":1"; "1}  "] in
  let st := set_recv_script ((RecvText <$> pieces) ++ [RecvText "[]"])
                            (quiet 41250 event.init) in
  _read_socket json_loads_subset st =
    (Ok (VDict [("op", VInt 11)]), set_recv_script [RecvText "[]"] st).
Proof.
  intros pieces st.
  apply (split_frame_is_reassembled json_loads_subset pieces [RecvText "[]"]);
    [reflexivity | discriminate | | discriminate | vm_compute; reflexivity].
  intros n Hn. cbn in Hn.
  destruct n as [|[|[|n]]]; try lia; split; try discriminate;
    vm_compute; reflexivity.
Defined.



(** ** The consumer loop, again *)




(** X17: when the transport is found closed, or reset by the peer, while
    the object is connected, that turn of the consumer loop logs one warning
    and clears [connected], and the loop is over at its next guard: it does
    not go on polling. *)
Theorem consumer_loop_ends_when_transport_closes :
  forall loads turns st rest,
    connected st = true ->
    recv_script st = RecvClosed :: rest \/
    recv_script st = RecvOSError 104 :: rest ->
    exists o st',
      consumer_loop loads (S turns) st = (o, st') /\
      o <> Running /\
      connected st' = false /\
      exists msg, log st' = log st ++ [(WARNING, msg)].
Proof.
  intros loads turns st rest Hc Hscript. cbn [consumer_loop].
  rewrite Hc. cbn [negb].
  destruct (consumer_body loads st) as [r1 st1] eqn:Hb.
  assert (Hc1 : connected st1 = false /\
                exists msg, log st1 = log st ++ [(WARNING, msg)]).
  { pose proof Hb as Hb'. unfold consumer_body, _read_socket in Hb'.
    destruct (read_loop loads (recv_script st) EmptyString st)
      as [r0 st0] eqn:Hr.
    assert (H0 : connected st0 = false /\
                 exists msg, log st0 = log st ++ [(WARNING, msg)]).
    { destruct Hscript as [Hs|Hs]; rewrite Hs in Hr; cbn [read_loop] in Hr;
        rewrite ?Hc in Hr; cbn [negb] in Hr.
      - apply read_loop_effect in Hr as (_ & _ & _ & _ & _ & Hlog).
        destruct Hlog as [[-> ->]|[Hx _]]; [|discriminate Hx].
        cbn. split; [reflexivity | by eexists].
      - rewrite bool_decide_eq_true_2 in Hr by reflexivity.
        injection Hr as <- <-. cbn. split; [reflexivity | by eexists]. }
    destruct r0 as [m|e]; [|by injection Hb' as <- <-].
    destruct (negb (truthy m)); by injection Hb' as <- <-. }
  destruct Hc1 as [Hc1 Hlog1].
  destruct r1 as [[]|e].
  - destruct turns as [|turns]; cbn [consumer_loop]; rewrite Hc1; cbn [negb];
      eexists _, _; (split; [reflexivity|]); by repeat split.
  - eexists _, _. split; [reflexivity|]. by repeat split.
Qed.

Lemma consumer_loop_ends_when_transport_closes_witness :
  let st := set_recv_script [RecvClosed; RecvText "[1]"]
              (quiet 41250 event.init) in
  exists o st',
    consumer_loop json_loads_subset 5 st = (o, st') /\
    o <> Running /\ connected st' = false.
Proof.
  intros st.
  destruct (consumer_loop_ends_when_transport_closes json_loads_subset 4 st
              [RecvText "[1]"] eq_refl (or_introl eq_refl))
    as (o & st' & H & Hrun & Hc & _).
  by exists o, st'.
Defined.

(** ** The heartbeat loop, again *)

Lemma write_socket_frame data st r st' :
  _write_socket data st = (r, st') ->
  workers st' = workers st /\ bus st' = bus st /\
  recv_script st' = recv_script st /\
  heartbeat_interval st' = heartbeat_interval st /\ status st' = status st.
Proof.
  unfold _write_socket. intros H.
  destruct st as [conn p sq ps hi stt rs ss se w lg b]. cbn in H.
  destruct (hd SendOk ss) as [|errno|].
  - by injection H as <- <-.
  - destruct (bool_decide (errno = 104)).
    + destruct conn; cbn in H; by injection H as <- <-.
    + by injection H as <- <-.
  - destruct conn; cbn in H; by injection H as <- <-.
Qed.

(** What one turn of the heartbeat loop leaves alone, and how many frames
    it sends. *)
Lemma heartbeat_body_effect interval_ms tk last_heartbeat st r st' :
  heartbeat_body interval_ms tk last_heartbeat st = (r, st') ->
  sequence st' = sequence st /\ ping st' = ping st /\
  workers st' = workers st /\ bus st' = bus st /\
  recv_script st' = recv_script st /\
  (connected st = false -> connected st' = false) /\
  exists new,
    sent st' = sent st ++ new /\
    (length (heartbeats new) <= 1)%nat /\
    Forall (fun f => f = VDict [("op", VInt 1); ("d", sequence st)])
           (heartbeats new).
Proof.
  intros H.
  destruct (heartbeat_body_sent _ _ _ _ _ _ H) as (Hseq & new & Hsent & HF & _).
  assert (Hrest : ping st' = ping st /\ workers st' = workers st /\
                  bus st' = bus st /\ recv_script st' = recv_script st /\
                  (connected st = false -> connected st' = false) /\
                  (length new <= 2)%nat /\
                  (length new = 2%nat ->
                   exists f, nth_error new 1 = Some f /\ is_heartbeat f = false)).
  { unfold heartbeat_body in H.
    destruct (heartbeat_due interval_ms last_heartbeat (now tk)).
    2:{ injection H as <- <-. rewrite <- (app_nil_r (sent st)) in Hsent at 1.
        apply app_inv_head in Hsent as <-. cbn. repeat split; auto; lia. }
    set (hb := VDict [("op", VInt 1); ("d", sequence (set_ping_start (monotonic tk) st))]) in H.
    destruct (_write_socket hb (set_ping_start (monotonic tk) st))
      as [r1 st1] eqn:Hw1.
    pose proof (write_socket_effect _ _ _ _ Hw1) as (_ & Hp1 & _ & Hs1 & Hc1).
    pose proof (write_socket_frame _ _ _ _ Hw1) as (Hw & Hb & Hr & _).
    cbn in Hp1, Hs1, Hc1, Hw, Hb, Hr.
    destruct r1 as [[]|e].
    - destruct (set_status _ _) as [r2 st2] eqn:Hw2. unfold set_status in Hw2.
      pose proof (write_socket_effect _ _ _ _ Hw2) as (_ & Hp2 & _ & Hs2 & Hc2).
      pose proof (write_socket_frame _ _ _ _ Hw2) as (Hw' & Hb' & Hr' & _).
      cbn in Hp2, Hs2, Hc2, Hw', Hb', Hr'.
      assert (st' = st2) as -> by (destruct r2 as [[]|]; congruence).
      split; [congruence|]. split; [congruence|]. split; [congruence|].
      split; [congruence|]. split; [auto|].
      rewrite Hsent in Hs2.
      destruct Hs1 as [E1|E1], Hs2 as [E2|E2]; rewrite E1 in E2.
      + rewrite <- (app_nil_r (sent st)) in E2 at 2.
        apply app_inv_head in E2 as ->. cbn. split; [lia | discriminate].
      + apply app_inv_head in E2 as ->. cbn. split; [lia | discriminate].
      + apply app_inv_head in E2 as ->. cbn. split; [lia | discriminate].
      + rewrite <- app_assoc in E2. apply app_inv_head in E2 as ->. cbn.
        split; [lia|]. intros _. by eexists.
    - injection H as <- <-.
      split; [congruence|]. split; [congruence|]. split; [congruence|].
      split; [congruence|]. split; [auto|].
      destruct Hs1 as [E1|E1]; rewrite Hsent in E1.
      + rewrite <- (app_nil_r (sent st)) in E1 at 2.
        apply app_inv_head in E1 as ->. cbn. split; [lia | discriminate].
      + apply app_inv_head in E1 as ->. cbn. split; [lia | discriminate]. }
  destruct Hrest as (Hp & Hw & Hb & Hr & Hc & Hlen & Hsecond).
  repeat split; auto. exists new. split; [exact Hsent|]. split; [|exact HF].
  destruct new as [|f1 [|f2 [|f3 new]]]; cbn in Hlen; try lia.
  - cbn. lia.
  - unfold heartbeats. rewrite filter_cons. case_decide; cbn; lia.
  - destruct (Hsecond eq_refl) as (f & [= <-] & Hf).
    unfold heartbeats. rewrite !filter_cons. rewrite Hf.
    repeat case_decide; cbn; try lia; discriminate.
Qed.

(** X18: over any turns, the heartbeat loop sends at most one Heartbeat a
    turn, however long ago the last one went out, each with the stored
    sequence; it leaves the stored sequence, the latency, the pool, the
    registry and what there is to read alone; when it has returned,
    [connected] is false, and from a disconnected object it returns at once
    with nothing done. *)
Theorem heartbeat_loop_sends_at_most_one_a_turn :
  forall interval_ms ticks last_heartbeat st o st',
    heartbeat_loop interval_ms ticks last_heartbeat st = (o, st') ->
    sequence st' = sequence st /\ ping st' = ping st /\
    workers st' = workers st /\ bus st' = bus st /\
    recv_script st' = recv_script st /\
    (exists new,
        sent st' = sent st ++ new /\
        (length (heartbeats new) <= length ticks)%nat /\
        Forall (fun f => f = VDict [("op", VInt 1); ("d", sequence st)])
               (heartbeats new)) /\
    (o = Returned -> connected st' = false) /\
    (connected st = false -> o = Returned /\ st' = st).
Proof.
  intros interval_ms ticks.
  induction ticks as [|tk ticks IH]; intros last st o st' H;
    cbn [heartbeat_loop] in H.
  - destruct (connected st) eqn:Hc; cbn [negb] in H; injection H as <- <-;
      repeat split; auto; try discriminate;
      exists []; rewrite app_nil_r; by repeat split.
  - destruct (connected st) eqn:Hc; cbn [negb] in H.
    2:{ injection H as <- <-. repeat split; auto.
        exists []. rewrite app_nil_r. repeat split; [cbn; lia | constructor]. }
    destruct (heartbeat_body interval_ms tk last st) as [r1 st1] eqn:Hb.
    apply heartbeat_body_effect in Hb
      as (Hs & Hp & Hw & Hbus & Hr & _ & new1 & Hsent1 & Hlen1 & HF1).
    destruct r1 as [last1|e].
    + apply IH in H
        as (-> & -> & -> & -> & -> & (new2 & -> & Hlen2 & HF2) & Hret & _).
      repeat split; auto; try discriminate.
      exists (new1 ++ new2). rewrite Hsent1, <- app_assoc.
      split; [reflexivity|]. rewrite heartbeats_app. split.
      * rewrite length_app. cbn. lia.
      * apply Forall_app. split; [exact HF1|]. by rewrite <- Hs.
    + injection H as <- <-. repeat split; auto; try discriminate.
      exists new1. split; [exact Hsent1|]. split; [cbn; lia | exact HF1].
Qed.

Lemma heartbeat_loop_sends_at_most_one_a_turn_witness :
  let st := quiet 41250 event.init in
  heartbeats (sent (heartbeat_loop 41250 [Tick 500 500 500] 0 st).2) =
    [VDict [("op", VInt 1); ("d", VInt 0)]] /\
  heartbeat_loop 41250 [Tick 500 500 500] 0 (set_connected false st) =
    (Returned, set_connected false st).
Proof.
  intros st. split; [vm_compute; reflexivity|].
  destruct (heartbeat_loop_sends_at_most_one_a_turn 41250 [Tick 500 500 500]
              0%Q (set_connected false st) _ _ (surjective_pairing _))
    as (_ & _ & _ & _ & _ & _ & _ & Hdone).
  destruct (Hdone eq_refl) as [Ho Hst].
  rewrite (surjective_pairing (heartbeat_loop _ _ _ _)). by rewrite Ho, Hst.
Defined.

(** X19: while less than the interval less one time unit has passed since
    the last send, the turns of the heartbeat loop do nothing at all: no
    frame, no log entry, no change of status. *)
Theorem heartbeat_loop_waits :
  forall interval_ms ticks last_heartbeat st,
    Forall (fun tk => (now tk - last_heartbeat <
                       inject_Z interval_ms / 1000 - 1)%Q) ticks ->
    exists o, heartbeat_loop interval_ms ticks last_heartbeat st = (o, st).
Proof.
  intros interval_ms ticks last st HF.
  induction HF as [|tk ticks Hearly HF IH]; cbn [heartbeat_loop].
  - destruct (negb (connected st)); by eexists.
  - destruct (negb (connected st)); [by eexists|].
    unfold heartbeat_body.
    assert (Hdue : heartbeat_due interval_ms last (now tk) = false).
    { destruct (heartbeat_due interval_ms last (now tk)) eqn:E; [|done].
      apply heartbeat_due_spec in E. exfalso.
      by apply (Qlt_not_le _ _ Hearly). }
    rewrite Hdue. exact IH.
Qed.

Lemma heartbeat_loop_waits_witness :
  let st := quiet 41250 event.init in
  exists o,
    heartbeat_loop 41250 [Tick 50 50 50; Tick 51 51 51; Tick (161 # 2) 0 0]
                   41 st = (o, st).
Proof.
  intros st. apply heartbeat_loop_waits.
  repeat constructor.
Defined.

(** A send that finds the peer gone while the object is connected. *)
Lemma write_socket_peer_gone data st :
  connected st = true ->
  hd SendOk (send_script st) = SendClosed \/
  hd SendOk (send_script st) = SendOSError 104 ->
  exists st',
    _write_socket data st = (Ok tt, st') /\
    connected st' = false /\ sent st' = sent st.
Proof.
  intros Hc Hhd. unfold _write_socket.
  destruct st as [conn p sq ps hi stt rs ss se w lg b]. cbn in *. subst conn.
  destruct Hhd as [-> | ->]; cbn; by eexists.
Qed.

(** X20: a Heartbeat that meets a closed or reset socket while the object
    is connected does not go out; the send clears [connected], and the loop
    is over within that turn or at the next guard: it never sends another
    Heartbeat. *)
Theorem heartbeat_loop_ends_when_socket_closes :
  forall interval_ms tk ticks last_heartbeat st,
    connected st = true ->
    heartbeat_due interval_ms last_heartbeat (now tk) = true ->
    hd SendOk (send_script st) = SendClosed \/
    hd SendOk (send_script st) = SendOSError 104 ->
    exists o st',
      heartbeat_loop interval_ms (tk :: ticks) last_heartbeat st = (o, st') /\
      o <> Running /\
      connected st' = false /\
      heartbeats (sent st') = heartbeats (sent st).
Proof.
  intros interval_ms tk ticks last st Hc Hdue Hhd.
  cbn [heartbeat_loop]. rewrite Hc. cbn [negb].
  unfold heartbeat_body. rewrite Hdue.
  set (st0 := set_ping_start (monotonic tk) st).
  set (hb := VDict [("op", VInt 1); ("d", sequence st0)]).
  destruct (write_socket_peer_gone hb st0 Hc Hhd) as (st1 & -> & Hc1 & Hs1).
  change (sent st0) with (sent st) in Hs1.
  destruct (set_status _ _) as [r2 st2] eqn:Hw2. unfold set_status in Hw2.
  pose proof (write_socket_effect _ _ _ _ Hw2) as (_ & _ & _ & Hsent2 & Hc2).
  cbn in Hsent2, Hc2. specialize (Hc2 Hc1).
  assert (Hhb2 : heartbeats (sent st2) = heartbeats (sent st)).
  { destruct Hsent2 as [-> | ->]; rewrite Hs1; [reflexivity|].
    rewrite heartbeats_app. cbn. by rewrite app_nil_r. }
  destruct r2 as [[]|e].
  - destruct ticks as [|tk' ticks]; cbn [heartbeat_loop]; rewrite Hc2;
      cbn [negb]; eexists _, _; (split; [reflexivity|]); by repeat split.
  - eexists _, _. split; [reflexivity|]. by repeat split.
Qed.

Lemma heartbeat_loop_ends_when_socket_closes_witness :
  let st := set_send_script [SendClosed] (quiet 41250 event.init) in
  exists o st',
    heartbeat_loop 41250 [Tick 41 41 41; Tick 500 500 500] 0 st = (o, st') /\
    o <> Running /\ connected st' = false /\ heartbeats (sent st') = [].
Proof.
  intros st.
  destruct (heartbeat_loop_ends_when_socket_closes 41250 (Tick 41 41 41)
              [Tick 500 500 500] 0%Q st eq_refl eq_refl (or_introl eq_refl))
    as (o & st' & H & Ho & Hc & Hhb).
  by exists o, st'.
Defined.

(** ** Disconnecting, again *)

Lemma set_connected_same st : set_connected (connected st) st = st.
Proof. by destruct st. Qed.

(** X21: [disconnect] always comes back, and a second [disconnect] changes
    nothing but the log, to which it adds its two lines again: the object
    stays disconnected, the threads stay ended, nothing is sent. *)
Theorem disconnect_twice :
  forall loads ticks turns ticks2 turns2 sys,
    exists sys1,
      disconnect loads ticks turns sys = Some sys1 /\
      disconnect loads ticks2 turns2 sys1 =
        Some (System
                (logger INFO "Disconnected from Discord"
                   (logger DEBUG
                      "Joined message_consumer and heartbeat threads"
                      (self sys1)))
                (heartbeat_thread sys1) (message_consumer_thread sys1)).
Proof.
  intros loads ticks turns ticks2 turns2 sys.
  destruct (disconnect_returns loads ticks turns sys)
    as (sys1 & Hd & Hc & _ & Hh & Hm).
  exists sys1. split; [exact Hd|].
  unfold disconnect, join_heartbeat, join_message_consumer.
  rewrite <- Hc, set_connected_same.
  cbn [heartbeat_thread message_consumer_thread self].
  destruct (heartbeat_thread sys1) as [|[l i]|o1] eqn:E1;
    [|by destruct (Hh (l, i))|];
    destruct (message_consumer_thread sys1) as [|[]|o2] eqn:E2;
    try (by destruct (Hm tt)); cbn; by rewrite ?E1, ?E2.
Qed.

(** ** The handshake *)

Lemma read_loop_blocking_some loads script data st x :
  read_loop_blocking loads script data st = Some x ->
  read_loop loads script data st = x.
Proof.
  revert data st. induction script as [|o script IH]; intros data st H;
    [discriminate|].
  destruct o as [s|errno|errno|]; cbn [read_loop read_loop_blocking] in *.
  - destruct (bool_decide _); [by injection H|].
    destruct (loads _); [by injection H | by apply IH].
  - destruct (bool_decide _); by injection H.
  - destruct (bool_decide (errno = 104)).
    + destruct (negb (connected st)); by injection H.
    + destruct (bool_decide _); by injection H.
  - destruct (negb (connected st)); [by injection H | by apply IH].
Qed.

(** A frame that comes whole in one read. *)
Lemma read_loop_blocking_one loads s v rest st :
  s <> EmptyString -> loads (rstrip s) = Some v ->
  read_loop_blocking loads (RecvText s :: rest) EmptyString st =
    Some (Ok v, set_recv_script rest st).
Proof.
  intros Hne Hv. cbn [read_loop_blocking].
  change (String.app EmptyString s) with s.
  by rewrite (bool_decide_eq_false_2 _ Hne), Hv.
Qed.

(** X22: when the Hello frame and one more frame come, each whole, and the
    sends go through, [connect] ends with the object connected: the interval
    is the one of the Hello payload, a Heartbeat with the stored sequence
    and then the Identify payload have gone out, in this order and nothing
    else, the stored sequence is untouched and the latency is the sample of
    the two clock readings.  The second frame is not looked at: any frame
    does, a HeartbeatAck or not. *)
Theorem connect_handshake :
  forall loads token os t1 t2 st h a rest hello d interval ack,
    recv_script st = RecvText h :: RecvText a :: rest ->
    send_script st = [] ->
    h <> EmptyString -> loads (rstrip h) = Some hello ->
    subscript hello "d" = Ok d ->
    subscript d "heartbeat_interval" = Ok (VInt interval) ->
    a <> EmptyString -> loads (rstrip a) = Some ack ->
    exists st',
      connect loads token os t1 t2 st = Connected st' /\
      connected st' = true /\
      heartbeat_interval st' = interval /\
      sequence st' = sequence st /\
      sent st' = sent st ++ [VDict [("op", VInt 1); ("d", sequence st)];
                             identify token os] /\
      ping st' = latency t1 t2 /\
      recv_script st' = rest /\
      log st' = log st ++
                [(INFO, "Attempting connection to Discord servers");
                 (INFO, "Succesful login to Discord")].
Proof.
  intros loads token os t1 t2 st h a rest hello d interval ack
         Hrecv Hsend Hh Hhello Hd Hi Ha Hack.
  destruct st as [conn p sq ps hi stt rs ss se w lg b].
  cbn in Hrecv, Hsend. subst rs ss.
  unfold connect. cbn -[latency read_loop_blocking identify].
  rewrite (read_loop_blocking_one _ _ _ _ _ Hh Hhello).
  rewrite Hd. cbn [bind]. rewrite Hi.
  unfold _write_socket at 2. cbn -[latency read_loop_blocking identify].
  rewrite (read_loop_blocking_one _ _ _ _ _ Ha Hack).
  unfold _write_socket. cbn -[latency identify].
  eexists. split; [reflexivity|]. cbn -[latency identify].
  rewrite <- !app_assoc. by repeat split.
Qed.

Lemma connect_handshake_witness :
  let hello := String.app "{"
                 (String.app (quoted "op")
                    (String.app ":10,"
                       (String.app (quoted "d")
                          (String.app ":{"
                             (String.app (quoted "heartbeat_interval")
                                         ":41250}}"))))) in
  let st := set_recv_script [RecvText hello; RecvText "[]"]
              (__init__ (quiet 0 event.init)) in
  exists st',
    connect json_loads_subset "secret" "Linux" 1 (5 # 4) st = Connected st' /\
    heartbeat_interval st' = 41250 /\
    heartbeats (sent st') = [VDict [("op", VInt 1); ("d", VInt 0)]] /\
    ping st' = 250.
Proof.
  intros hello st.
  destruct (connect_handshake json_loads_subset "secret" "Linux" 1 (5 # 4) st
              hello "[]" []
              (VDict [("op", VInt 10);
                      ("d", VDict [("heartbeat_interval", VInt 41250)])])
              (VDict [("heartbeat_interval", VInt 41250)]) 41250 (VList []))
    as (st' & H & _ & Hi & _ & Hsent & Hping & _);
    try reflexivity; try discriminate; try (vm_compute; reflexivity).
  exists st'. split; [exact H|]. split; [exact Hi|].
  rewrite Hsent, Hping. split; vm_compute; reflexivity.
Defined.

Lemma read_loop_frame loads script data st r st' :
  read_loop loads script data st = (r, st') ->
  ping_start st' = ping_start st /\
  heartbeat_interval st' = heartbeat_interval st /\
  status st' = status st /\ send_script st' = send_script st.
Proof.
  revert data st. induction script as [|o script IH]; intros data st H.
  - by injection H as <- <-.
  - destruct o as [s|errno|errno|]; cbn [read_loop] in H.
    + destruct (bool_decide _); [by injection H as <- <-|].
      destruct (loads _); [by injection H as <- <-|]. by apply IH in H.
    + destruct (bool_decide _); by injection H as <- <-.
    + destruct (bool_decide (errno = 104)).
      * destruct (negb (connected st)); by injection H as <- <-.
      * destruct (bool_decide _); by injection H as <- <-.
    + destruct (negb (connected st)); [by injection H as <- <-|].
      by apply IH in H.
Qed.

(** A read in the handshake of an object that is not connected. *)
Lemma read_blocking_disconnected loads script data st r st' :
  connected st = false ->
  read_loop_blocking loads script data st = Some (r, st') ->
  connected st' = false /\ sequence st' = sequence st /\
  ping st' = ping st /\ sent st' = sent st /\ workers st' = workers st /\
  bus st' = bus st /\ log st' = log st /\ ping_start st' = ping_start st /\
  heartbeat_interval st' = heartbeat_interval st /\
  send_script st' = send_script st.
Proof.
  intros Hc H. apply read_loop_blocking_some in H.
  pose proof (read_loop_effect _ _ _ _ _ _ H) as (? & ? & ? & ? & ? & Hlog).
  pose proof (read_loop_frame _ _ _ _ _ _ H) as (? & ? & _ & ?).
  destruct Hlog as [[Hc' Hl]|[Hx _]]; [|congruence].
  rewrite Hc' , Hc. by repeat split.
Qed.

(** X23: [connect] sets [connected] as its last step and nowhere else: an
    object that was not connected is connected when [connect] ends well and
    is still not connected when it raises.  In both cases the stored
    sequence, the pool and the registry are as before; after a good end the
    latency is the sample of the two clock readings. *)
Theorem connect_sets_connected_last :
  forall loads token os t1 t2 st,
    connected st = false ->
    match connect loads token os t1 t2 st with
    | ConnectRaises e st' =>
        connected st' = false /\ sequence st' = sequence st /\
        workers st' = workers st /\ bus st' = bus st
    | Connected st' =>
        connected st' = true /\ sequence st' = sequence st /\
        workers st' = workers st /\ bus st' = bus st /\
        ping st' = latency t1 t2 /\ ping_start st' = t1
    | ConnectBlocks | ConnectNotModelled => True
    end.
Proof.
  intros loads token os t1 t2 st Hc. unfold connect.
  set (st0 := logger INFO "Attempting connection to Discord servers" st).
  destruct (read_loop_blocking loads (recv_script st0) EmptyString st0)
    as [[r1 st1]|] eqn:Hr1; [|exact I].
  apply (read_blocking_disconnected _ _ _ st0) in Hr1
    as (Hc1 & Hs1 & _ & _ & Hw1 & Hb1 & _); [|exact Hc].
  cbn in Hs1, Hw1, Hb1.
  destruct r1 as [hello|e]; [|by repeat split].
  destruct (d <- subscript hello "d" ;; subscript d "heartbeat_interval")
    as [[| | interval | | | | | | ]|e]; try exact I; [|by repeat split].
  set (st2 := set_ping_start t1 (set_heartbeat_interval interval st1)).
  destruct (_write_socket (VDict [("op", VInt 1); ("d", sequence st2)]) st2)
    as [r3 st3] eqn:Hw.
  pose proof (write_socket_effect _ _ _ _ Hw) as (Hs3 & _ & Hps3 & _ & Hc3).
  pose proof (write_socket_frame _ _ _ _ Hw) as (Hw3 & Hb3 & _).
  cbn in Hs3, Hps3, Hc3, Hw3, Hb3. specialize (Hc3 Hc1).
  destruct r3 as [[]|e]; [|repeat split; congruence].
  destruct (read_loop_blocking loads (recv_script st3) EmptyString st3)
    as [[r4 st4]|] eqn:Hr4; [|exact I].
  apply read_blocking_disconnected in Hr4
    as (Hc4 & Hs4 & _ & _ & Hw4 & Hb4 & _ & Hps4 & _); [|exact Hc3].
  destruct r4 as [ack|e]; [|repeat split; congruence].
  set (st5 := set_ping (latency (ping_start st4) t2) st4).
  destruct (_write_socket (identify token os) st5) as [r6 st6] eqn:Hw'.
  pose proof (write_socket_effect _ _ _ _ Hw') as (Hs6 & Hp6 & Hps6 & _ & Hc6).
  pose proof (write_socket_frame _ _ _ _ Hw') as (Hw6 & Hb6 & _).
  cbn in Hs6, Hp6, Hps6, Hc6, Hw6, Hb6. specialize (Hc6 Hc4).
  destruct r6 as [[]|e]; cbn; repeat split; congruence.
Qed.

Lemma connect_sets_connected_last_witness :
  let st := set_recv_script [RecvText "[]"] (__init__ (quiet 0 event.init)) in
  exists e st',
    connect json_loads_subset "secret" "Linux" 1 2 st = ConnectRaises e st' /\
    connected st' = false.
Proof.
  intros st.
  pose proof (connect_sets_connected_last json_loads_subset "secret" "Linux"
                1 2 st eq_refl) as H.
  destruct (connect json_loads_subset "secret" "Linux" 1 2 st)
    as [|e st'|st'|] eqn:E; try (vm_compute in E; discriminate E).
  exists e, st'. split; [reflexivity | by destruct H].
Defined.



(** ** Sending messages *)

Lemma string_app_empty_r (a : string) : String.app a EmptyString = a.
Proof.
  induction a as [|x a IH]; [reflexivity|].
  change (String x (String.app a EmptyString) = String x a). by f_equal.
Qed.

Lemma mention_text_app l1 l2 :
  mention_text (l1 ++ l2) = String.app (mention_text l1) (mention_text l2).
Proof.
  induction l1 as [|u l1 IH]; [reflexivity|].
  change (String.app (String.app "<@" (String.app u "> "))
                     (mention_text (l1 ++ l2)) =
          String.app (String.app (String.app "<@" (String.app u "> "))
                                 (mention_text l1))
                     (mention_text l2)).
  rewrite IH. symmetry. apply string_app_assoc.
Qed.

Lemma with_mentions_reverse message mentions :
  with_mentions message mentions =
  String.app (mention_text (reverse mentions)) message.
Proof.
  revert message. induction mentions as [|u mentions IH]; intros message.
  - reflexivity.
  - change (with_mentions message (u :: mentions))
      with (with_mentions
              (String.app (String.app "<@" (String.app u "> ")) message)
              mentions).
    rewrite IH, reverse_cons, mention_text_app.
    change (mention_text [u])
      with (String.app (String.app "<@" (String.app u "> ")) EmptyString).
    rewrite string_app_empty_r. symmetry. apply string_app_assoc.
Qed.

(** X25: [say] to a channel given by a string makes one request, a POST to
    the messages of that channel under the base address, with the
    authorization header of the token.  Its content carries the mentions in
    front of the message in reverse order: the user named last in the list
    comes first in the text. *)
Theorem say_posts_mentions_reversed :
  forall env token channel message embed mentions st text,
    json_dumps env
      (VDict [("content",
               VStr (String.app (mention_text (reverse mentions)) message));
              ("embed", embed); ("mentions", VList (VStr <$> mentions))])
      = Ok text ->
    exists st',
      say env token (VStr channel) message embed mentions st =
        (Ok tt, st',
         [Request POST
            (String.app "https://discordapp.com/api/channels/"
                        (String.app channel "/messages"))
            [("authorization", String.app "Bot " token);
             ("Content-Type", "application/json")]
            (Some text)]).
Proof.
  intros env token channel message embed mentions st text Hdumps.
  unfold say. rewrite with_mentions_reverse, Hdumps.
  unfold api.create_message, api.base_url, api.auth_headers.
  assert (Huri : forall a b c d : string,
             String.app (String.app a b) (String.app c d) =
             String.app (String.app a (String.app b c)) d).
  { intros. by rewrite !string_app_assoc. }
  change (String.app "https://discordapp.com/api"
            (String.app "/channels/" (String.app channel "/messages")))
    with (String.app "https://discordapp.com/api/channels/"
            (String.app channel "/messages")).
  destruct (perform env _); by eexists.
Qed.

Lemma say_posts_mentions_reversed_witness :
  let env := Environment (fun _ => Ok "text") (fun _ => "error")
                         (fun _ => Response 200 None) in
  mention_text (reverse ["1"; "2"]) = "<@2> <@1> " /\
  exists st',
    say env "secret" (VStr "42") "hello" VNone ["1"; "2"]
        (quiet 41250 event.init) =
      (Ok tt, st',
       [Request POST "https://discordapp.com/api/channels/42/messages"
          [("authorization", "Bot secret");
           ("Content-Type", "application/json")] (Some "text")]).
Proof.
  intros env. split; [reflexivity|].
  apply (say_posts_mentions_reversed env "secret" "42" "hello" VNone ["1"; "2"]
           (quiet 41250 event.init) "text").
  reflexivity.
Defined.



Lemma say_returns env token channel message embed mentions st :
  exists st' requests,
    say env token (VStr channel) message embed mentions st =
      (Ok tt, st', requests).
Proof.
  unfold say. destruct (json_dumps env _) as [text|e]; [|by eexists _, _].
  destruct (api.create_message env token channel (Text text)) as [[[]|f] rqs];
    by eexists _, _.
Qed.

Lemma say_rejects env token channel_id message embed mentions st :
  (forall channel, channel_id <> VStr channel) ->
  say env token channel_id message embed mentions st = (Raise TypeError, st, []).
Proof.
  intros Hn. unfold say. destruct channel_id; try reflexivity.
  by destruct (Hn s).
Qed.

(** X27: [whisper] first asks the server for the channel of the user.  If
    that request is answered with a status from 400 to 599, [whisper] ends
    with that error, no message is posted and nothing is logged.  If the
    answer carries a channel whose [id] is a string, what follows is [say]
    to that channel, its request coming after the first.  If the [id] is
    not a string, [whisper] raises [TypeError], the channel having been
    made. *)
Theorem whisper_makes_the_channel_first :
  forall env token user_id message embed mentions st text,
    json_dumps env (VDict [("recipient_id", VStr user_id)]) = Ok text ->
    let rq := Request POST "https://discordapp.com/api/users/@me/channels"
                [("authorization", String.app "Bot " token);
                 ("Content-Type", "application/json")] (Some text) in
    (forall code json,
        server env rq = Response code json -> 400 <= code < 600 ->
        whisper env token user_id message embed mentions st =
          (Failed (HTTPError code), st, [rq])) /\
    (forall code channel id,
        server env rq = Response code (Some channel) ->
        ~ 400 <= code < 600 ->
        subscript channel "id" = Ok id ->
        (forall channel_id,
            id = VStr channel_id ->
            exists st' requests,
              say env token (VStr channel_id) message embed mentions st =
                (Ok tt, st', requests) /\
              whisper env token user_id message embed mentions st =
                (Done tt, st', rq :: requests)) /\
        ((forall channel_id, id <> VStr channel_id) ->
         whisper env token user_id message embed mentions st =
           (Failed (Py TypeError), st, [rq]))).
Proof.
  intros env token user_id message embed mentions st text Hdumps rq.
  assert (Hdm : api.create_dm env token user_id =
                match perform env rq with
                | Failed f => (Failed f, [rq])
                | Done r => (response_json r, [rq])
                end).
  { unfold api.create_dm. by rewrite Hdumps. }
  split.
  - intros code json Hserver Hcode. unfold whisper. rewrite Hdm.
    unfold perform. rewrite Hserver.
    rewrite (proj2 (Z.leb_le _ _)), (proj2 (Z.ltb_lt _ _)) by lia. reflexivity.
  - intros code channel id Hserver Hcode Hid.
    assert (Hperform : perform env rq = Done (Response code (Some channel))).
    { unfold perform. rewrite Hserver.
      destruct (400 <=? code) eqn:E1; [|reflexivity].
      destruct (code <? 600) eqn:E2; [|reflexivity].
      apply Z.leb_le in E1. apply Z.ltb_lt in E2. lia. }
    split.
    + intros channel_id ->.
      destruct (say_returns env token channel_id message embed mentions st)
        as (st' & requests & Hs).
      exists st', requests. split; [exact Hs|].
      unfold whisper. rewrite Hdm, Hperform. cbn [response_json].
      by rewrite Hid, Hs.
    + intros Hn. unfold whisper. rewrite Hdm, Hperform. cbn [response_json].
      rewrite Hid.
      by rewrite (say_rejects env token id message embed mentions st Hn).
Qed.

Lemma whisper_makes_the_channel_first_witness :
  let opened := Environment (fun _ => Ok "text") (fun _ => "error")
                  (fun _ => Response 200 (Some (VDict [("id", VStr "77")]))) in
  let denied := Environment (fun _ => Ok "text") (fun _ => "error")
                  (fun _ => Response 403 None) in
  let st := quiet 41250 event.init in
  let rq := Request POST "https://discordapp.com/api/users/@me/channels"
              [("authorization", "Bot secret");
               ("Content-Type", "application/json")] (Some "text") in
  whisper denied "secret" "9" "hello" VNone [] st =
    (Failed (HTTPError 403), st, [rq]) /\
  exists st' requests,
    whisper opened "secret" "9" "hello" VNone [] st =
      (Done tt, st', rq :: requests).
Proof.
  intros opened denied st rq. split.
  - destruct (whisper_makes_the_channel_first denied "secret" "9" "hello"
                VNone [] st "text" eq_refl) as [Hdenied _].
    apply (Hdenied 403 None); [reflexivity | lia].
  - destruct (whisper_makes_the_channel_first opened "secret" "9" "hello"
                VNone [] st "text" eq_refl) as [_ Hopened].
    destruct (Hopened 200 (VDict [("id", VStr "77")]) (VStr "77"))
      as [Hsay _]; [reflexivity | lia | reflexivity|].
    destruct (Hsay "77" eq_refl) as (st' & requests & _ & Hw).
    by exists st', requests.
Defined.

Lemma unsubscribe_raises_iff_witness :
  let c := event.subscribe READY (Callback 1) event.init in
  event.unsubscribe READY (Callback 2) c = Raise ValueError /\
  forall e, event.unsubscribe RESUMED (Callback 2) c <> Raise e.
Proof.
  intros c. split.
  - apply unsubscribe_raises_iff. split; [reflexivity|].
    split; [by eexists|]. vm_compute.
    intros [[=]|H]%elem_of_cons. by apply elem_of_nil in H.
  - intros e H. apply unsubscribe_raises_iff in H as (_ & [l Hl] & _).
    vm_compute in Hl. discriminate Hl.
Defined.
